(** * Luman-Slides: the history manager, the media workflow and the
      generation client of the slide editor, embedded in Rocq.

    The controller is a React function component.  Its state lives in
    [useState] cells; an event handler is a closure over the values those
    cells had at the render that created it, and everything a handler does to
    the state is a sequence of setter calls that React applies, in order, to
    the pending state.  The embedding keeps that split:

    - [AppState] holds the [useState] cells of the component;
    - a handler is a function from the render it closes over to the list of
      [call]s it issues;
    - [exec] applies one call to the pending state, [run] a whole list, and
      [dispatch] runs a handler as one user event (the closure is the current
      render, zero-delay timers fire before the next event).

    The generation client (services/gemini.ts) talks to a remote service.  The
    service is a [World]: a record of the answers the SDK and [fetch] give. *)

From Stdlib Require Import List ZArith String Ascii Bool Lia.
From Stdlib Require Import DecimalString DecimalNat Permutation.
Import ListNotations.
Open Scope string_scope.
Open Scope list_scope.
Open Scope Z_scope.

(** ** Data model (types.ts) *)

Inductive SlideLayout :=
| Title | SplitLeft | SplitRight | Center | ImageHeavy | Data | Conclusion.

Inductive MediaType := MediaNone | Image | Video.

(** Optional properties ([subtitle?], [mediaUrl?], ...) are [option]s: [None]
    is both "absent" and "undefined", which is also how [JSON.stringify]
    treats them. *)
Record Slide := mkSlide {
  id : string;
  layout : SlideLayout;
  title : string;
  subtitle : option string;
  content : list string;
  imagePrompt : string;
  mediaType : MediaType;
  mediaUrl : option string;
  isLoadingMedia : option bool;
  notes : option string
}.

(** An element of the [history] array: [{slides, title}]. *)
Record HistoryEntry := mkEntry {
  h_slides : list Slide;
  h_title : string
}.

(** The [useState] cells of [App] that the history manager, the media
    workflow and the editing operations read or write. *)
Record AppState := mkApp {
  slides : list Slide;
  currentSlideIndex : Z;
  presentationTitle : string;
  history : list HistoryEntry;
  historyIndex : Z;
  isRestoringHistory : bool
}.

(** Errors a handler or the client can throw. *)
Inductive JsError :=
| ApiKeyNotFound            (* Error("API Key not found in environment variables.") *)
| SdkError                  (* a rejected SDK promise *)
| NetworkError              (* a rejected fetch or blob promise *)
| HttpError (status : Z)    (* Error(`Failed to fetch video: ...`) *)
| TypeError.                (* reading a property of undefined *)

(** ** JavaScript arrays *)

Module Js.

  (** [a[i]]: undefined outside [0, length). *)
Definition get {A} (a : list A) (i : Z) : option A :=
    if i <? 0 then None else nth_error a (Z.to_nat i).

  (** [a.slice(0, e)]: a negative [e] counts from the end, and the end is
      clamped to the array. *)
Definition slice0 {A} (a : list A) (e : Z) : list A :=
    let len := Z.of_nat (List.length a) in
    let stop := if e <? 0 then Z.max (len + e) 0 else Z.min e len in
    firstn (Z.to_nat stop) a.

  (** [a.shift()] as used on a fresh array: drops the first element. *)
Definition shift {A} (a : list A) : list A := tl a.

  (** [a.length] *)
Definition length {A} (a : list A) : Z := Z.of_nat (List.length a).

  (** [a.filter((_, i) => i !== index)] *)
Fixpoint filter_index_ne {A} (a : list A) (i index : Z) : list A :=
    match a with
    | [] => []
    | x :: rest =>
        if i =? index then filter_index_ne rest (i + 1) index
        else x :: filter_index_ne rest (i + 1) index
    end.

End Js.

(** ** Deep comparison through [JSON.stringify]

    A slide of the model has a fixed set of fields in a fixed order, and an
    absent optional field serialises like an undefined one, so two slide
    sequences serialise to the same text exactly when they are equal. *)

Definition SlideLayout_eq_dec (a b : SlideLayout) : {a = b} + {a <> b}.
Proof. decide equality. Defined.

Definition MediaType_eq_dec (a b : MediaType) : {a = b} + {a <> b}.
Proof. decide equality. Defined.

Definition option_eq_dec {A} (d : forall x y : A, {x = y} + {x <> y})
  (a b : option A) : {a = b} + {a <> b}.
Proof. decide equality. Defined.

Definition Slide_eq_dec (a b : Slide) : {a = b} + {a <> b}.
Proof.
  decide equality;
    first [ apply string_dec | apply SlideLayout_eq_dec | apply MediaType_eq_dec
          | apply (option_eq_dec string_dec) | apply (option_eq_dec bool_dec)
          | apply (list_eq_dec string_dec) ].
Defined.

Definition json_equal (a b : list Slide) : bool :=
  if list_eq_dec Slide_eq_dec a b then true else false.

(** ** Setter calls and their effect on the pending state *)

Inductive call : Type :=
| SetSlides (u : list Slide -> list Slide)   (* setSlides(v) is [SetSlides (fun _ => v)] *)
| SetCurrentSlideIndex (i : Z)
| SetPresentationTitle (t : string)
| SetHistoryIndex (i : Z)
| SetIsRestoringHistory (b : bool)
| PushToHistory (newSlides : list Slide) (newTitle : string)
| SetTimeout (k : call)                      (* setTimeout(() => k, 0) *)
| Alert (msg : string)
| ConsoleError (e : JsError)
| Throw (e : JsError).                       (* the handler stops with an uncaught error *)

Definition MAX_HISTORY : Z := 30.

(** [pushToHistory]: both updaters are functional, so they act on the pending
    state [s]; [historyIndex] in the slice and [history.length] in the index
    adjustment are the values of the render [r] the callback closes over. *)
Definition pushToHistory (r : AppState) (newSlides : list Slide) (newTitle : string)
    (s : AppState) : AppState :=
  let newHistory :=
    let sliced := Js.slice0 (history s) (historyIndex r + 1) in
    let pushed := sliced ++ [mkEntry newSlides newTitle] in
    if MAX_HISTORY <? Js.length pushed then Js.shift pushed else pushed in
  let newIndex :=
    let nextIndex := historyIndex s + 1 in
    if MAX_HISTORY <? Js.length (history r) then 29 else nextIndex in
  mkApp (slides s) (currentSlideIndex s) (presentationTitle s)
        newHistory newIndex (isRestoringHistory s).

Definition exec (r : AppState) (c : call) (s : AppState) : AppState :=
  match c with
  | SetSlides u =>
      mkApp (u (slides s)) (currentSlideIndex s) (presentationTitle s)
            (history s) (historyIndex s) (isRestoringHistory s)
  | SetCurrentSlideIndex i =>
      mkApp (slides s) i (presentationTitle s)
            (history s) (historyIndex s) (isRestoringHistory s)
  | SetPresentationTitle t =>
      mkApp (slides s) (currentSlideIndex s) t
            (history s) (historyIndex s) (isRestoringHistory s)
  | SetHistoryIndex i =>
      mkApp (slides s) (currentSlideIndex s) (presentationTitle s)
            (history s) i (isRestoringHistory s)
  | SetIsRestoringHistory b =>
      mkApp (slides s) (currentSlideIndex s) (presentationTitle s)
            (history s) (historyIndex s) b
  | PushToHistory newSlides newTitle => pushToHistory r newSlides newTitle s
  | SetTimeout _ | Alert _ | ConsoleError _ | Throw _ => s
  end.

Definition run (r : AppState) (cs : list call) (s : AppState) : AppState :=
  fold_left (fun acc c => exec r c acc) cs s.

(** The callbacks a handler handed to [setTimeout]. *)
Definition timers (cs : list call) : list call :=
  flat_map (fun c => match c with SetTimeout k => [k] | _ => [] end) cs.

(** One user event: the handler of the current render runs, React applies its
    calls, then the zero-delay timers fire. *)
Definition dispatch (handler : AppState -> list call) (s : AppState) : AppState :=
  let cs := handler s in
  run s (timers cs) (run s cs s).

(** What a trace shows to the outside. *)
Definition pushes (cs : list call) : list HistoryEntry :=
  flat_map (fun c => match c with
                     | PushToHistory sl t => [mkEntry sl t]
                     | _ => []
                     end) cs.

Definition alerts (cs : list call) : list string :=
  flat_map (fun c => match c with Alert m => [m] | _ => [] end) cs.

Definition thrown (cs : list call) : list JsError :=
  flat_map (fun c => match c with Throw e => [e] | _ => [] end) cs.

(** ** History manager (App, "History Logic") *)

Definition push (newSlides : list Slide) (newTitle : string) (r : AppState) : list call :=
  [PushToHistory newSlides newTitle].

Definition undo (r : AppState) : list call :=
  if 0 <? historyIndex r then
    SetIsRestoringHistory true ::
    match Js.get (history r) (historyIndex r - 1) with
    | None => [Throw TypeError]           (* prevState.slides on undefined *)
    | Some prevState =>
        [ SetSlides (fun _ => h_slides prevState);
          SetPresentationTitle (h_title prevState);
          SetHistoryIndex (historyIndex r - 1);
          SetTimeout (SetIsRestoringHistory false) ]
    end
  else [].

Definition redo (r : AppState) : list call :=
  if historyIndex r <? Js.length (history r) - 1 then
    SetIsRestoringHistory true ::
    match Js.get (history r) (historyIndex r + 1) with
    | None => [Throw TypeError]
    | Some nextState =>
        [ SetSlides (fun _ => h_slides nextState);
          SetPresentationTitle (h_title nextState);
          SetHistoryIndex (historyIndex r + 1);
          SetTimeout (SetIsRestoringHistory false) ]
    end
  else [].

Definition saveSnapshot (r : AppState) : list call :=
  if isRestoringHistory r then []
  else
    match Js.get (history r) (historyIndex r) with
    | Some lastState =>
        if json_equal (h_slides lastState) (slides r) then []
        else [PushToHistory (slides r) (presentationTitle r)]
    | None => [PushToHistory (slides r) (presentationTitle r)]
    end.

(** [deleteProject] after the user confirmed, and the state a fresh component
    starts in. *)
Definition emptyApp : AppState := mkApp [] 0 "" [] (-1) false.

(** ** Generation client (services/gemini.ts) *)

(** How an awaited call of the client ends.  [Pending] is a call that is still
    polling when the recorded answers of the service run out. *)
Inductive completion (A : Type) : Type :=
| Returned (a : A)
| Raised (e : JsError)
| Pending.
Arguments Returned {A} a.
Arguments Raised {A} e.
Arguments Pending {A}.

Definition bind {A B} (c : completion A) (k : A -> completion B) : completion B :=
  match c with
  | Returned a => k a
  | Raised e => Raised e
  | Pending => Pending
  end.

(** [try { body } catch (error) { handler }] *)
Definition try_catch {A} (body : completion A) (handler : JsError -> completion A)
    : completion A :=
  match body with
  | Raised e => handler e
  | other => other
  end.

(** A promise of the SDK or of [fetch]. *)
Inductive promise (A : Type) : Type :=
| Resolves (a : A)
| Rejects (e : JsError).
Arguments Resolves {A} a.
Arguments Rejects {A} e.

Definition await {A} (p : promise A) : completion A :=
  match p with
  | Resolves a => Returned a
  | Rejects e => Raised e
  end.

(** The part of a video operation the client reads: [operation.done] and
    [operation.response?.generatedVideos?.[0]?.video?.uri]. *)
Record Operation := mkOperation {
  done : bool;
  videoUri : option string
}.

(** The part of a fetch response the client reads; [blob] is
    [URL.createObjectURL(await res.blob())]. *)
Record Response := mkResponse {
  ok : bool;
  status : Z;
  blob : promise string
}.

(** The remote service and the environment, as the answers they give.
    [generateContent] is keyed by the two texts the refinement request is
    built from and gives [response.text?.trim()]; [generateImages] gives
    [response.generatedImages?.[0]?.image?.imageBytes]; [getVideosOperation]
    lists the answers of the successive polls and [fetch] the answer to each
    attempt of the asset download. *)
Record World := mkWorld {
  API_KEY : option string;
  generateContent : string -> string -> promise (option string);
  generateImages : string -> promise (option string);
  generateVideos : string -> promise Operation;
  getVideosOperation : list (promise Operation);
  fetch : nat -> promise Response
}.

(** JavaScript truthiness of a string that may be undefined or null. *)
Definition truthy (v : option string) : option string :=
  match v with
  | Some EmptyString => None
  | other => other
  end.

Definition getAiClient (w : World) : completion unit :=
  match truthy (API_KEY w) with
  | None => Raised ApiKeyNotFound
  | Some _ => Returned tt
  end.

Definition refineImagePrompt (w : World) (originalPrompt slideTitle : string)
    : completion string :=
  bind (getAiClient w) (fun _ =>
    if 150 <? Z.of_nat (String.length originalPrompt) then Returned originalPrompt
    else
      try_catch
        (bind (await (generateContent w originalPrompt slideTitle)) (fun text =>
           match truthy text with
           | Some refined => Returned refined
           | None => Returned originalPrompt
           end))
        (fun _ => Returned originalPrompt)).

Definition IMAGE_STYLE : string :=
  " , photorealistic, cinematic lighting, 8k, high quality, professional photography, no text, no words".

Definition VIDEO_STYLE : string := ", cinematic, smooth motion, high quality, 4k".

Definition generateSlideImage (w : World) (prompt : string) : completion (option string) :=
  bind (getAiClient w) (fun _ =>
    try_catch
      (bind (await (generateImages w (prompt ++ IMAGE_STYLE)%string)) (fun imageBytes =>
         match truthy imageBytes with
         | Some base64 => Returned (Some ("data:image/jpeg;base64," ++ base64)%string)
         | None => Returned None
         end))
      (fun _ => Returned None)).

(** [while (!operation.done) { wait 5s; operation = await getVideosOperation }] *)
Fixpoint poll (operation : Operation) (answers : list (promise Operation))
    : completion Operation :=
  if done operation then Returned operation
  else
    match answers with
    | [] => Pending
    | Rejects e :: _ => Raised e
    | Resolves next :: rest => poll next rest
    end.

(** One pass through the body of the download loop: [Returned (Some url)] is
    the [return], [Returned None] the [continue] after a 404. *)
Definition fetchAttempt (w : World) (i : nat) : completion (option string) :=
  bind (await (fetch w i)) (fun res =>
    if ok res then bind (await (blob res)) (fun url => Returned (Some url))
    else if status res =? 404 then Returned None
    else Raised (HttpError (status res))).

(** [for (let i = ...; i < 3; i++) { try { attempt } catch (e) { if (i === 2)
    throw e; wait } }] with [remaining] passes to go; leaving the loop falls
    through to [return null]. *)
Fixpoint fetchLoop (w : World) (i remaining : nat) : completion (option string) :=
  match remaining with
  | O => Returned None
  | S more =>
      match fetchAttempt w i with
      | Returned (Some url) => Returned (Some url)
      | Returned None => fetchLoop w (S i) more
      | Raised e => if Nat.eqb i 2 then Raised e else fetchLoop w (S i) more
      | Pending => Pending
      end
  end.

Definition generateSlideVideo (w : World) (prompt : string) : completion (option string) :=
  bind (getAiClient w) (fun _ =>
    try_catch
      (bind (await (generateVideos w (prompt ++ VIDEO_STYLE)%string)) (fun started =>
       bind (poll started (getVideosOperation w)) (fun operation =>
         match truthy (videoUri operation) with
         | Some _ => fetchLoop w 0 3
         | None => Returned None
         end)))
      (fun _ => Returned None)).

(** ** Media workflow ([generateMediaForSlide]) *)

Inductive MediaRequest := RequestImage | RequestVideo.   (* 'image' | 'video' *)

Definition requested (type : MediaRequest) : MediaType :=
  match type with
  | RequestVideo => Video
  | RequestImage => Image
  end.

Definition includes_comma (s : string) : bool :=
  existsb (fun c => Ascii.eqb c ","%char) (list_ascii_of_string s).

(** [{ ...s, isLoadingMedia: b, mediaType: k }] *)
Definition withLoading (s : Slide) (b : bool) (k : MediaType) : Slide :=
  mkSlide (id s) (layout s) (title s) (subtitle s) (content s) (imagePrompt s)
          k (mediaUrl s) (Some b) (notes s).

(** [{ ...s, isLoadingMedia: false, mediaUrl: url, mediaType: k }] *)
Definition withMedia (s : Slide) (url : option string) (k : MediaType) : Slide :=
  mkSlide (id s) (layout s) (title s) (subtitle s) (content s) (imagePrompt s)
          k url (Some false) (notes s).

(** [slides.map(s => s.id === slideId ? f(s) : s)] *)
Definition mapSlide (slideId : string) (f : Slide -> Slide) (l : list Slide) : list Slide :=
  map (fun s => if String.eqb (id s) slideId then f s else s) l.

(** The prompt the job sends: refined when the slide's prompt is short and has
    no comma, the original one when refinement throws. *)
Definition activePrompt (w : World) (slide : Slide) : string :=
  if (Z.of_nat (String.length (imagePrompt slide)) <? 100)
       && negb (includes_comma (imagePrompt slide))
  then match refineImagePrompt w (imagePrompt slide) (title slide) with
       | Returned refined => refined
       | _ => imagePrompt slide
       end
  else imagePrompt slide.

(** The awaited part of the [try] block. *)
Definition mediaJob (w : World) (slide : Slide) (type : MediaRequest)
    : completion (option string) :=
  match type with
  | RequestVideo => generateSlideVideo w (activePrompt w slide)
  | RequestImage => generateSlideImage w (activePrompt w slide)
  end.

Definition FAILURE_NOTICE : string := "Media generation failed. Please try again.".

Definition generateMediaForSlide (w : World) (slideId : string) (type : MediaRequest)
    (r : AppState) : list call :=
  PushToHistory (slides r) (presentationTitle r) ::
  match find (fun s => String.eqb (id s) slideId) (slides r) with
  | None => []
  | Some slide =>
      SetSlides (mapSlide slideId (fun s => withLoading s true (requested type))) ::
      match mediaJob w slide type with
      | Raised e =>
          [ ConsoleError e;
            SetSlides (mapSlide slideId (fun s => withLoading s false MediaNone));
            Alert FAILURE_NOTICE ]
      | Pending => []
      | Returned mediaUrl =>
          let updatedSlides :=
            mapSlide slideId
              (fun s => withMedia s (truthy mediaUrl)
                          (match truthy mediaUrl with
                           | Some _ => requested type
                           | None => MediaNone
                           end))
              (slides r) in
          [ SetSlides (fun _ => updatedSlides);
            PushToHistory updatedSlides (presentationTitle r) ]
      end
  end.

(** ** Editing operations *)

(** [handleSlideUpdate(id, updates)], with the partial update as a function. *)
Definition handleSlideUpdate (slideId : string) (updates : Slide -> Slide)
    (r : AppState) : list call :=
  [SetSlides (mapSlide slideId updates)].

Definition LAST_SLIDE_NOTICE : string := "Presentation must have at least one slide.".

Definition deleteSlide (index : Z) (r : AppState) : list call :=
  if Js.length (slides r) <=? 1 then [Alert LAST_SLIDE_NOTICE]
  else
    let newSlides := Js.filter_index_ne (slides r) 0 index in
    [ PushToHistory (slides r) (presentationTitle r);
      SetSlides (fun _ => newSlides) ]
    ++ (if (index <=? currentSlideIndex r) && (0 <? currentSlideIndex r)
        then [SetCurrentSlideIndex (currentSlideIndex r - 1)] else [])
    ++ [PushToHistory newSlides (presentationTitle r)].

(** ** The invariants the specification names *)

(** History Log: index in [-1, length-1]. *)
Definition index_in_range (s : AppState) : Prop :=
  -1 <= historyIndex s <= Js.length (history s) - 1.

(** Slide: a media locator is present only with a media kind other than none. *)
Definition media_consistent (s : Slide) : bool :=
  match mediaUrl s, mediaType s with
  | Some _, MediaNone => false
  | _, _ => true
  end.

(** ** User events and sample data *)

Inductive event :=
| EvPush (newSlides : list Slide) (newTitle : string)
| EvUndo
| EvRedo
| EvSaveSnapshot
| EvEdit (slideId : string) (updates : Slide -> Slide)
| EvDelete (index : Z).

Definition handler (e : event) : AppState -> list call :=
  match e with
  | EvPush newSlides newTitle => push newSlides newTitle
  | EvUndo => undo
  | EvRedo => redo
  | EvSaveSnapshot => saveSnapshot
  | EvEdit slideId updates => handleSlideUpdate slideId updates
  | EvDelete index => deleteSlide index
  end.

Definition step (s : AppState) (e : event) : AppState := dispatch (handler e) s.

Definition steps (s : AppState) (es : list event) : AppState := fold_left step es s.

(** Decks "A", "B", "C", ... of one slide each, told apart by the slide. *)
Definition label (n : nat) : string := String (ascii_of_nat (65 + n)) EmptyString.

Definition sampleSlide (name : string) : Slide :=
  mkSlide name Center name None ["first point"] "a city at night" MediaNone None
          (Some false) None.

Definition version (n : nat) : HistoryEntry := mkEntry [sampleSlide (label n)] "Deck".

Definition pushVersion (n : nat) : event := EvPush (h_slides (version n)) (h_title (version n)).

(** The log after the versions [0 .. n-1] were pushed onto an empty one. *)
Definition pushed (n : nat) : AppState := steps emptyApp (map pushVersion (seq 0 n)).

(** A session opened on the deck [sl]: the log holds that deck alone. *)
Definition editor (sl : list Slide) : AppState :=
  mkApp sl 0 "Deck" [mkEntry sl "Deck"] 0 false.

(** A slide that already carries a generated image. *)
Definition illustrated : Slide :=
  mkSlide "a" SplitRight "Harbour" None ["first point"] "a harbour at dawn"
          Image (Some "data:image/jpeg;base64,AAAA") (Some false) None.

(** A service that answers every request with nothing usable. *)
Definition emptyWorld : World :=
  mkWorld (Some "key")
          (fun _ _ => Resolves None)
          (fun _ => Resolves None)
          (fun _ => Resolves (mkOperation true None))
          []
          (fun _ => Resolves (mkResponse false 404 (Rejects NetworkError))).

(** The same service reached without an API key. *)
Definition noKeyWorld : World :=
  mkWorld None (generateContent emptyWorld) (generateImages emptyWorld)
          (generateVideos emptyWorld) (getVideosOperation emptyWorld) (fetch emptyWorld).

(** A service whose generation requests are all rejected. *)
Definition failingWorld : World :=
  mkWorld (Some "key")
          (fun _ _ => Rejects SdkError)
          (fun _ => Rejects SdkError)
          (fun _ => Rejects SdkError)
          []
          (fun _ => Rejects NetworkError).

(** A service that renders a video after two polls, the second of which is
    rejected. *)
Definition pollFailsWorld : World :=
  mkWorld (Some "key")
          (fun _ _ => Resolves None)
          (fun _ => Resolves None)
          (fun _ => Resolves (mkOperation false None))
          [Resolves (mkOperation false None); Rejects SdkError]
          (fun _ => Rejects NetworkError).

(** A service that renders a video whose download answers 500 every time. *)
Definition downloadFailsWorld : World :=
  mkWorld (Some "key")
          (fun _ _ => Resolves None)
          (fun _ => Resolves None)
          (fun _ => Resolves (mkOperation true (Some "https://video.example/v?alt=media")))
          []
          (fun _ => Resolves (mkResponse false 500 (Rejects NetworkError))).

(** [w] with its image request answered by an empty response. *)
Definition withEmptyImage (w : World) : World :=
  mkWorld (API_KEY w) (generateContent w) (fun _ => Resolves None)
          (generateVideos w) (getVideosOperation w) (fetch w).

(** [w] with its video request answered by a finished operation without a video. *)
Definition withEmptyVideo (w : World) : World :=
  mkWorld (API_KEY w) (generateContent w) (generateImages w)
          (fun _ => Resolves (mkOperation true None)) (getVideosOperation w) (fetch w).

(** A sequence of deletions, one event each. *)
Definition deletions (s : AppState) (indices : list Z) : AppState :=
  steps s (map EvDelete indices).

(** The slides of the entry the index points at, if there is one. *)
Definition currentEntrySlides (r : AppState) : option (list Slide) :=
  option_map h_slides (Js.get (history r) (historyIndex r)).

(** A session on deck "A" whose title was changed since the last checkpoint,
    and one whose slide was replaced. *)
Definition retitled : AppState :=
  mkApp [sampleSlide "A"] 0 "Renamed" [mkEntry [sampleSlide "A"] "Deck"] 0 false.

Definition edited : AppState :=
  mkApp [sampleSlide "B"] 0 "Deck" [mkEntry [sampleSlide "A"] "Deck"] 0 false.

(** The events of the history manager proper. *)
Definition history_event (e : event) : bool :=
  match e with
  | EvPush _ _ | EvUndo | EvRedo | EvSaveSnapshot => true
  | _ => false
  end.

(** A session on two slides. *)
Definition twoSlides : AppState := editor [sampleSlide "a"; sampleSlide "b"].

(** ** More of the editor: structural edits *)

(** [a.splice(start, ...)]: where the splice begins. A negative [start] counts
    from the end, and the position is clamped to the array. *)
Definition splice_start (len start : Z) : Z :=
  if start <? 0 then Z.max (len + start) 0 else Z.min start len.

(** [const [x] = a.splice(start, 1)]: the removed element, undefined when the
    splice begins at the end of the array, and the array that is left. *)
Definition splice_remove {A} (a : list A) (start : Z) : option A * list A :=
  let k := Z.to_nat (splice_start (Js.length a) start) in
  (nth_error a k, firstn k a ++ skipn (S k) a).

(** [a.splice(start, 0, x)] *)
Definition splice_insert {A} (a : list A) (start : Z) (x : A) : list A :=
  let k := Z.to_nat (splice_start (Js.length a) start) in
  firstn k a ++ x :: skipn k a.

(** A natural number in a template literal. *)
Definition decimal (n : nat) : string := NilEmpty.string_of_uint (Nat.to_uint n).

(** The slide [addSlide] creates; [now] is the reading of [Date.now()]. *)
Definition newSlide (now : nat) : Slide :=
  mkSlide ("slide-" ++ decimal now)%string SplitRight "New Slide" None
          ["Click to edit point 1"; "Click to edit point 2"]
          "A professional office background, cinematic lighting"
          MediaNone None None None.

Definition addSlide (now : nat) (r : AppState) : list call :=
  let newSlides := splice_insert (slides r) (currentSlideIndex r + 1) (newSlide now) in
  [ PushToHistory (slides r) (presentationTitle r);
    SetSlides (fun _ => newSlides);
    SetCurrentSlideIndex (currentSlideIndex r + 1);
    PushToHistory newSlides (presentationTitle r) ].

Inductive Direction := Up | Down.   (* 'up' | 'down' *)

(** [moveSlide].  An index past the deck moves [undefined]: the array that
    results is not a deck, and the render that follows throws when it reads
    [slide.id]; the trace ends with that error. *)
Definition moveSlide (fromIndex : Z) (direction : Direction) (r : AppState) : list call :=
  let atBoundary :=
    match direction with
    | Up => fromIndex =? 0
    | Down => fromIndex =? Js.length (slides r) - 1
    end in
  if atBoundary then []
  else
    let toIndex := match direction with Up => fromIndex - 1 | Down => fromIndex + 1 end in
    match splice_remove (slides r) fromIndex with
    | (None, _) => [PushToHistory (slides r) (presentationTitle r); Throw TypeError]
    | (Some movedSlide, rest) =>
        let newSlides := splice_insert rest toIndex movedSlide in
        [ PushToHistory (slides r) (presentationTitle r);
          SetSlides (fun _ => newSlides) ]
        ++ (if currentSlideIndex r =? fromIndex then [SetCurrentSlideIndex toIndex]
            else if currentSlideIndex r =? toIndex then [SetCurrentSlideIndex fromIndex]
            else [])
        ++ [PushToHistory newSlides (presentationTitle r)]
    end.

(** [{ ...s, layout }] *)
Definition withLayout (newLayout : SlideLayout) (s : Slide) : Slide :=
  mkSlide (id s) newLayout (title s) (subtitle s) (content s) (imagePrompt s)
          (mediaType s) (mediaUrl s) (isLoadingMedia s) (notes s).

Definition changeLayout (newLayout : SlideLayout) (r : AppState) : list call :=
  match Js.get (slides r) (currentSlideIndex r) with
  | None => []
  | Some current =>
      let newSlides := mapSlide (id current) (withLayout newLayout) (slides r) in
      [ PushToHistory (slides r) (presentationTitle r);
        SetSlides (fun _ => newSlides);
        PushToHistory newSlides (presentationTitle r) ]
  end.

(** The partial updates the slide view hands to [onUpdateSlide]. *)
Inductive SlideEdit :=
| EditContent (newContent : list string)   (* { content: newContent } *)
| RemoveMedia                              (* { mediaUrl: undefined, mediaType: MediaType.None } *)
| EditPrompt (value : string)              (* { imagePrompt: value } *)
| EditTitle (value : string)               (* { title: value } *)
| EditSubtitle (value : string).           (* { subtitle: value } *)

(** [{ ...s, ...updates }] *)
Definition applyEdit (e : SlideEdit) (s : Slide) : Slide :=
  match e with
  | EditContent newContent =>
      mkSlide (id s) (layout s) (title s) (subtitle s) newContent (imagePrompt s)
              (mediaType s) (mediaUrl s) (isLoadingMedia s) (notes s)
  | RemoveMedia =>
      mkSlide (id s) (layout s) (title s) (subtitle s) (content s) (imagePrompt s)
              MediaNone None (isLoadingMedia s) (notes s)
  | EditPrompt value =>
      mkSlide (id s) (layout s) (title s) (subtitle s) (content s) value
              (mediaType s) (mediaUrl s) (isLoadingMedia s) (notes s)
  | EditTitle value =>
      mkSlide (id s) (layout s) value (subtitle s) (content s) (imagePrompt s)
              (mediaType s) (mediaUrl s) (isLoadingMedia s) (notes s)
  | EditSubtitle value =>
      mkSlide (id s) (layout s) (title s) (Some value) (content s) (imagePrompt s)
              (mediaType s) (mediaUrl s) (isLoadingMedia s) (notes s)
  end.

(** What the user can do in the editor.  A media job is taken as a whole: it
    completes before the next gesture. *)
Inductive gesture :=
| DoUndo
| DoRedo
| DoSaveSnapshot
| DoEdit (slideId : string) (e : SlideEdit)
| DoDelete (index : Z)
| DoAdd (now : nat)
| DoMove (fromIndex : Z) (direction : Direction)
| DoLayout (newLayout : SlideLayout)
| DoMedia (w : World) (slideId : string) (type : MediaRequest).

Definition gesture_handler (g : gesture) : AppState -> list call :=
  match g with
  | DoUndo => undo
  | DoRedo => redo
  | DoSaveSnapshot => saveSnapshot
  | DoEdit slideId e => handleSlideUpdate slideId (applyEdit e)
  | DoDelete index => deleteSlide index
  | DoAdd now => addSlide now
  | DoMove fromIndex direction => moveSlide fromIndex direction
  | DoLayout newLayout => changeLayout newLayout
  | DoMedia w slideId type => generateMediaForSlide w slideId type
  end.

Definition perform (s : AppState) (g : gesture) : AppState := dispatch (gesture_handler g) s.

Definition session (s : AppState) (gs : list gesture) : AppState := fold_left perform gs s.

(** A property of decks that holds of the live deck and of every checkpoint. *)
Definition deck_inv (P : list Slide -> Prop) (s : AppState) : Prop :=
  P (slides s) /\ Forall (fun e => P (h_slides e)) (history s).

(** A call that keeps such a property. *)
Fixpoint call_keeps (P : list Slide -> Prop) (c : call) : Prop :=
  match c with
  | SetSlides u => forall l, P l -> P (u l)
  | PushToHistory newSlides _ => P newSlides
  | SetTimeout k => call_keeps P k
  | _ => True
  end.

Definition populated (l : list Slide) : Prop := l <> [].

Definition all_consistent (l : list Slide) : Prop := forallb media_consistent l = true.

(** A session on three slides with the second one selected. *)
Definition threeSlides : AppState :=
  mkApp [sampleSlide "a"; sampleSlide "b"; illustrated] 1 "Deck"
        [mkEntry [sampleSlide "a"; sampleSlide "b"; illustrated] "Deck"] 0 false.

(** Gestures whose media jobs run against a service that satisfies [safe]. *)
Definition gesture_safe (safe : World -> Prop) (g : gesture) : Prop :=
  match g with
  | DoMedia w _ _ => safe w
  | _ => True
  end.

Definition has_key (w : World) : Prop := getAiClient w = Returned tt.

(** A call that never sets the history index below -1. *)
Fixpoint index_call_ok (c : call) : Prop :=
  match c with
  | SetHistoryIndex i => -1 <= i
  | SetTimeout k => index_call_ok k
  | _ => True
  end.

(** A few gestures on [threeSlides], one of each kind. *)
Definition sampleSession : list gesture :=
  [ DoEdit "a" (EditTitle "Arrival"); DoSaveSnapshot; DoAdd 1700; DoMove 1 Down;
    DoDelete 0; DoLayout Data; DoMedia emptyWorld "a" RequestImage;
    DoMedia noKeyWorld "b" RequestVideo; DoUndo; DoUndo; DoRedo; DoDelete 7 ].

Definition keyedSession : list gesture :=
  [ DoEdit "a" RemoveMedia; DoSaveSnapshot; DoAdd 1700; DoMove 1 Down;
    DoDelete 0; DoLayout Data; DoMedia emptyWorld "a" RequestImage;
    DoMedia failingWorld "b" RequestVideo; DoUndo; DoUndo; DoRedo ].

(** The calls [generateMediaForSlide] issues once its awaits are over: its
    trace without the pre-job push and the optimistic update. *)
Definition settled (w : World) (slideId : string) (type : MediaRequest)
    (r : AppState) : list call :=
  skipn 2 (generateMediaForSlide w slideId type r).

(** A poll answer that ends the polling. *)
Definition ends_polling (answer : promise Operation) : Prop :=
  match answer with
  | Resolves next => done next = true
  | Rejects _ => True
  end.

(** A service whose video is downloadable at the second attempt. *)
Definition retryWorld : World :=
  mkWorld (Some "key")
          (fun _ _ => Resolves (Some "a harbour at dawn, soft light"))
          (fun _ => Resolves (Some "AAAA"))
          (fun _ => Resolves (mkOperation false None))
          [Resolves (mkOperation true (Some "https://video.example/v?alt=media"))]
          (fun i => match i with
                    | 1%nat => Resolves (mkResponse true 200 (Resolves "blob:video"))
                    | _ => Resolves (mkResponse false 404 (Rejects NetworkError))
                    end).

(** [retryWorld] with every request after the third one rejected. *)
Definition lateWorld : World :=
  mkWorld (API_KEY retryWorld) (generateContent retryWorld) (generateImages retryWorld)
          (generateVideos retryWorld) (getVideosOperation retryWorld)
          (fun i => if Nat.ltb i 3 then fetch retryWorld i else Rejects NetworkError).

(** ** The shell around the editor: structure generation, storage, reset *)

(** [GenerationStatus] *)
Inductive GenerationStatus :=
| Idle | Analyzing | Structuring | Visualizing | Complete | ErrorStatus.

(** A slide as the structuring request describes it (the response schema). *)
Record Draft := mkDraft {
  d_layout : SlideLayout;
  d_title : string;
  d_subtitle : option string;
  d_content : list string;
  d_imagePrompt : string;
  d_notes : option string
}.

(** The structuring side of the service: [structure] gives
    [JSON.parse(response.text || "[]")] for the request built from the topic
    and the notes, or the error thrown on the way; [clock] is the reading of
    [Date.now()] when the slide at an index is hydrated. *)
Record StructureService := mkStructureService {
  client : World;
  structure : string -> string -> promise (list Draft);
  clock : nat -> nat
}.

(** [`slide-${Date.now()}-${index}`] *)
Definition hydratedId (now index : nat) : string :=
  ("slide-" ++ decimal now ++ "-" ++ decimal index)%string.

(** [rawSlides.map((s, index) => ({ ...s, id, mediaType: None, isLoadingMedia:
    false }))], from position [index] on. *)
Fixpoint hydrate (clock : nat -> nat) (index : nat) (rawSlides : list Draft) : list Slide :=
  match rawSlides with
  | [] => []
  | s :: rest =>
      mkSlide (hydratedId (clock index) index) (d_layout s) (d_title s) (d_subtitle s)
              (d_content s) (d_imagePrompt s) MediaNone None (Some false) (d_notes s)
      :: hydrate clock (S index) rest
  end.

Definition generatePresentationStructure (sv : StructureService) (topic rawText : string)
    : completion (list Slide) :=
  bind (getAiClient (client sv)) (fun _ =>
  bind (await (structure sv topic rawText)) (fun rawSlides =>
    Returned (hydrate (clock sv) 0 rawSlides))).

(** What [localStorage] holds under the project key: text that cannot be read
    back as a project, or the project [{slides, title, status}].  A slide of
    the model is read back from its JSON text as it was written. *)
Inductive StoredItem :=
| Unreadable
| Project (savedSlides : list Slide) (savedTitle : string) (savedStatus : GenerationStatus).

Record Shell := mkShell {
  core : AppState;
  appStatus : GenerationStatus;
  storage : option StoredItem
}.

Inductive shell_call :=
| Core (c : call)
| SetStatus (st : GenerationStatus)
| SetHistory (h : list HistoryEntry)
| RemoveItem          (* localStorage.removeItem(STORAGE_KEY) *)
| LogLoadError.       (* console.error("Failed to load saved project", e) *)

Definition shell_exec (r : AppState) (c : shell_call) (sh : Shell) : Shell :=
  match c with
  | Core c => mkShell (exec r c (core sh)) (appStatus sh) (storage sh)
  | SetStatus st => mkShell (core sh) st (storage sh)
  | SetHistory h =>
      mkShell (mkApp (slides (core sh)) (currentSlideIndex (core sh))
                     (presentationTitle (core sh)) h (historyIndex (core sh))
                     (isRestoringHistory (core sh)))
              (appStatus sh) (storage sh)
  | RemoveItem => mkShell (core sh) (appStatus sh) None
  | LogLoadError => sh
  end.

Definition shell_run (r : AppState) (cs : list shell_call) (sh : Shell) : Shell :=
  fold_left (fun acc c => shell_exec r c acc) cs sh.

(** The effect on [slides, presentationTitle, status] ([appStatus] here): a complete project
    with at least one slide is written to storage. *)
Definition persist (sh : Shell) : Shell :=
  match appStatus sh with
  | Complete =>
      if 0 <? Js.length (slides (core sh))
      then mkShell (core sh) (appStatus sh)
                   (Some (Project (slides (core sh)) (presentationTitle (core sh)) (appStatus sh)))
      else sh
  | _ => sh
  end.

(** One event of the shell: the handler runs, its calls are applied, and the
    persistence effect runs on the state that results. *)
Definition shell_dispatch (handler : Shell -> list shell_call) (sh : Shell) : Shell :=
  persist (shell_run (core sh) (handler sh) sh).

(** The mount effect: the saved project, if it has slides, becomes the deck
    and the only entry of the log. *)
Definition restore (sh : Shell) : list shell_call :=
  match storage sh with
  | None => []
  | Some Unreadable => [LogLoadError]
  | Some (Project savedSlides savedTitle _) =>
      if 0 <? Js.length savedSlides
      then [ Core (SetSlides (fun _ => savedSlides));
             Core (SetPresentationTitle savedTitle);
             SetStatus Complete;
             SetHistory [mkEntry savedSlides savedTitle];
             Core (SetHistoryIndex 0) ]
      else []
  end.

(** The component as it mounts over a given storage. *)
Definition mount (stored : option StoredItem) : Shell :=
  shell_dispatch restore (mkShell emptyApp Idle stored).

(** [deleteProject]; [confirmed] is the answer to [window.confirm]. *)
Definition deleteProject (confirmed : bool) (sh : Shell) : list shell_call :=
  if confirmed
  then [ RemoveItem;
         Core (SetSlides (fun _ => []));
         Core (SetPresentationTitle "");
         SetStatus Idle;
         SetHistory [];
         Core (SetHistoryIndex (-1)) ]
  else [].

(** [prev.map((s, i) => i === 0 ? f(s) : s)] *)
Definition mapFirst (f : Slide -> Slide) (l : list Slide) : list Slide :=
  match l with
  | [] => []
  | s :: rest => f s :: rest
  end.

(** [{ ...s, isLoadingMedia: false, mediaUrl: url, mediaType: Image }] *)
Definition withImage (url : string) (s : Slide) : Slide := withMedia s (Some url) Image.

(** The image of the title slide, generated in the background once the
    structure is there: the refined prompt goes to the image request, and a
    rejection of either promise is handled nowhere, so nothing follows it. *)
Definition titleImage (w : World) (firstSlide : Slide) : list shell_call :=
  match refineImagePrompt w (imagePrompt firstSlide) (title firstSlide) with
  | Returned refinedPrompt =>
      match generateSlideImage w refinedPrompt with
      | Returned url =>
          match truthy url with
          | Some locator => [Core (SetSlides (mapFirst (withImage locator)))]
          | None => [Core (SetSlides (mapFirst (fun s => withLoading s false MediaNone)))]
          end
      | _ => []
      end
  | _ => []
  end.

Definition STRUCTURE_NOTICE : string :=
  "Failed to generate structure. Please check your API key.".

Definition handleGenerateStructure (sv : StructureService) (topic rawText : string)
    (sh : Shell) : list shell_call :=
  [ SetStatus Analyzing; Core (SetPresentationTitle topic) ]
  ++ match generatePresentationStructure sv topic rawText with
     | Returned generatedSlides =>
         [ Core (SetSlides (fun _ => generatedSlides));
           SetStatus Complete;
           SetHistory [mkEntry generatedSlides topic];
           Core (SetHistoryIndex 0) ]
         ++ match generatedSlides with
            | [] => []
            | firstSlide :: _ =>
                Core (SetSlides (mapFirst (fun s => withLoading s true Image)))
                :: titleImage (client sv) firstSlide
            end
     | Raised e =>
         [ Core (ConsoleError e); SetStatus ErrorStatus; Core (Alert STRUCTURE_NOTICE) ]
     | Pending => []
     end.

(** Sample drafts and services. *)
Definition sampleDraft (name : string) (l : SlideLayout) : Draft :=
  mkDraft l name None ["first point"] "a quiet harbour" None.

Definition sampleDrafts : list Draft :=
  [ sampleDraft "Opening" Title; sampleDraft "Tides" SplitLeft;
    sampleDraft "Berths" Data; sampleDraft "Cranes" ImageHeavy;
    sampleDraft "Traffic" SplitRight; sampleDraft "Closing" Conclusion ].

Definition sampleService : StructureService :=
  mkStructureService retryWorld (fun _ _ => Resolves sampleDrafts) (fun _ => 1700%nat).

Definition brokenService : StructureService :=
  mkStructureService retryWorld (fun _ _ => Rejects SdkError) (fun _ => 1700%nat).

(** A running project with nothing stored yet. *)
Definition runningProject : Shell := mkShell threeSlides Complete None.

(** [illustrated] after its title was edited to "Quay", and a session in which
    that edit has not been checkpointed yet: the log still holds the deck as
    it was opened. *)
Definition quay : Slide :=
  mkSlide "a" SplitRight "Quay" None ["first point"] "a harbour at dawn"
          Image (Some "data:image/jpeg;base64,AAAA") (Some false) None.

Definition uncheckpointed : AppState :=
  mkApp [quay] 0 "Deck" [mkEntry [illustrated] "Deck"] 0 false.

(** * Properties *)

(** ** The history log *)

Section HistoryBounds.

Lemma slice0_length {A} (a : list A) (e : Z) :
    (List.length (Js.slice0 a e) <= List.length a)%nat.
  Proof. unfold Js.slice0. rewrite length_firstn. lia. Qed.

  (** Inside the array, [slice(0, e)] takes the first [e] elements. *)
Lemma slice0_firstn {A} (a : list A) (e : Z) :
    0 <= e -> Js.slice0 a e = firstn (Z.to_nat e) a.
  Proof.
    intros He. unfold Js.slice0.
    destruct (e <? 0) eqn:Hneg; [apply Z.ltb_lt in Hneg; lia|].
    destruct (Z.le_gt_cases e (Z.of_nat (List.length a))) as [Hle | Hgt].
    - rewrite Z.min_l by lia. reflexivity.
    - rewrite Z.min_r by lia. rewrite Nat2Z.id.
      rewrite firstn_all. symmetry. apply firstn_all2. lia.
  Qed.

Lemma slice0_all {A} (a : list A) (e : Z) :
    Js.length a <= e -> Js.slice0 a e = a.
  Proof.
    intros He. unfold Js.length in He.
    rewrite slice0_firstn by lia. apply firstn_all2. lia.
  Qed.

Lemma get_Some_lt {A} (a : list A) (i : Z) (x : A) :
    Js.get a i = Some x -> 0 <= i < Js.length a.
  Proof.
    unfold Js.get, Js.length. destruct (i <? 0) eqn:Hneg; [discriminate|].
    apply Z.ltb_ge in Hneg. intros H.
    assert (Hlt : (Z.to_nat i < List.length a)%nat).
    { apply nth_error_Some. congruence. }
    lia.
  Qed.

Lemma get_in_range {A} (a : list A) (i : Z) :
    0 <= i < Js.length a -> exists x, Js.get a i = Some x.
  Proof.
    unfold Js.get, Js.length. intros Hi.
    destruct (i <? 0) eqn:Hneg; [apply Z.ltb_lt in Hneg; lia|].
    destruct (nth_error a (Z.to_nat i)) eqn:Hn; [eauto|].
    apply nth_error_None in Hn. lia.
  Qed.

Lemma get_out_of_range {A} (a : list A) (i : Z) :
    Js.length a <= i -> Js.get a i = None.
  Proof.
    unfold Js.get, Js.length. intros Hi.
    destruct (i <? 0) eqn:Hneg; [reflexivity|].
    apply nth_error_None. lia.
  Qed.

  (** The log a push leaves has at most 30 entries when it had at most 30. *)
Lemma pushToHistory_bounded (r s : AppState) newSlides newTitle :
    Js.length (history s) <= MAX_HISTORY ->
    Js.length (history (pushToHistory r newSlides newTitle s)) <= MAX_HISTORY.
  Proof.
    unfold pushToHistory, MAX_HISTORY, Js.length, Js.shift. cbn [history]. intros Hlen.
    pose proof (slice0_length (history s) (historyIndex r + 1)) as Hs.
    set (grown := Js.slice0 (history s) (historyIndex r + 1) ++ [mkEntry newSlides newTitle]).
    assert (Hgrown : List.length grown = S (List.length (Js.slice0 (history s) (historyIndex r + 1)))).
    { unfold grown. rewrite length_app. cbn. lia. }
    destruct (30 <? Z.of_nat (List.length grown)) eqn:Hover.
    - destruct grown; cbn in *; lia.
    - apply Z.ltb_ge in Hover. lia.
  Qed.

Lemma exec_bounded (r s : AppState) (c : call) :
    Js.length (history s) <= MAX_HISTORY ->
    Js.length (history (exec r c s)) <= MAX_HISTORY.
  Proof.
    destruct c; cbn [exec history]; auto using pushToHistory_bounded.
  Qed.

Lemma run_bounded (r : AppState) (cs : list call) (s : AppState) :
    Js.length (history s) <= MAX_HISTORY ->
    Js.length (history (run r cs s)) <= MAX_HISTORY.
  Proof.
    unfold run. revert s.
    induction cs as [|c cs IH]; intros s Hs; cbn [fold_left]; auto using exec_bounded.
  Qed.

Lemma dispatch_bounded (h : AppState -> list call) (s : AppState) :
    Js.length (history s) <= MAX_HISTORY ->
    Js.length (history (dispatch h s)) <= MAX_HISTORY.
  Proof. intros Hs. unfold dispatch. auto using run_bounded. Qed.

  (** Whatever the user does, the log never holds more than 30 entries. *)
Lemma steps_bounded (es : list event) (s : AppState) :
    Js.length (history s) <= MAX_HISTORY ->
    Js.length (history (steps s es)) <= MAX_HISTORY.
  Proof.
    unfold steps. revert s.
    induction es as [|e es IH]; intros s Hs; cbn [fold_left]; [assumption|].
    apply IH. unfold step. auto using dispatch_bounded.
  Qed.

End HistoryBounds.

Section LinearHistory.

Lemma dispatch_push (s : AppState) newSlides newTitle :
    step s (EvPush newSlides newTitle) = pushToHistory s newSlides newTitle s.
  Proof. reflexivity. Qed.

  (** Below the capacity a push keeps the entries up to the index, appends the
      snapshot right after them and points the index at it. *)
Lemma push_below_capacity (s : AppState) newSlides newTitle :
    index_in_range s ->
    Js.length (history s) < MAX_HISTORY ->
    let s' := step s (EvPush newSlides newTitle) in
    history s' = firstn (Z.to_nat (historyIndex s + 1)) (history s)
                   ++ [mkEntry newSlides newTitle]
    /\ historyIndex s' = historyIndex s + 1
    /\ historyIndex s' = Js.length (history s') - 1
    /\ Js.get (history s') (historyIndex s') = Some (mkEntry newSlides newTitle).
  Proof.
    unfold index_in_range, MAX_HISTORY, Js.length. intros [Hlo Hhi] Hlen.
    rewrite dispatch_push. unfold pushToHistory, MAX_HISTORY, Js.length.
    cbn [history historyIndex].
    rewrite slice0_firstn by lia.
    set (kept := firstn (Z.to_nat (historyIndex s + 1)) (history s)).
    assert (Hkept : List.length kept = Z.to_nat (historyIndex s + 1)).
    { unfold kept. rewrite length_firstn. lia. }
    assert (Hfit : (30 <? Z.of_nat (List.length (kept ++ [mkEntry newSlides newTitle]))) = false).
    { apply Z.ltb_ge. rewrite length_app. cbn. lia. }
    assert (Hroom : (30 <? Z.of_nat (List.length (history s))) = false).
    { apply Z.ltb_ge. lia. }
    rewrite Hfit, Hroom. repeat split.
    - rewrite length_app. cbn. lia.
    - unfold Js.get.
      destruct (historyIndex s + 1 <? 0) eqn:Hneg; [apply Z.ltb_lt in Hneg; lia|].
      rewrite nth_error_app2 by lia.
      rewrite Hkept, Nat.sub_diag. reflexivity.
  Qed.

  (** After a push there is nothing to redo. *)
Lemma redo_after_push (s : AppState) newSlides newTitle :
    -1 <= historyIndex s ->
    Js.length (history s) <= MAX_HISTORY ->
    redo (step s (EvPush newSlides newTitle)) = [].
  Proof.
    unfold MAX_HISTORY, Js.length. intros Hlo Hlen.
    rewrite dispatch_push. unfold redo, pushToHistory, MAX_HISTORY, Js.length, Js.shift.
    cbn [history historyIndex].
    assert (Hroom : (30 <? Z.of_nat (List.length (history s))) = false).
    { apply Z.ltb_ge. lia. }
    rewrite Hroom.
    set (grown := Js.slice0 (history s) (historyIndex s + 1) ++ [mkEntry newSlides newTitle]).
    assert (Hgrown : Z.of_nat (List.length grown) <= historyIndex s + 2).
    { unfold grown. rewrite length_app, slice0_firstn, length_firstn by lia. cbn. lia. }
    assert (Htl : (List.length (tl grown) <= List.length grown)%nat).
    { destruct grown; cbn; lia. }
    match goal with |- (if ?c then _ else _) = [] => destruct c eqn:Hredo end;
      [|reflexivity].
    apply Z.ltb_lt in Hredo.
    destruct (30 <? Z.of_nat (List.length grown)); lia.
  Qed.

  (** With nothing before the current entry, undo does nothing. *)
Lemma undo_at_start (r : AppState) :
    historyIndex r <= 0 -> undo r = [] /\ step r EvUndo = r.
  Proof.
    intros Hi. unfold step, dispatch, handler, undo.
    assert (H : (0 <? historyIndex r) = false) by (apply Z.ltb_ge; lia).
    rewrite H. split; reflexivity.
  Qed.

  (** With an index in range and past the start, undo steps the index back and
      restores the entry it now points at. *)
Lemma undo_in_range (r : AppState) :
    index_in_range r -> 0 < historyIndex r ->
    exists prevState,
      Js.get (history r) (historyIndex r - 1) = Some prevState
      /\ step r EvUndo =
           mkApp (h_slides prevState) (currentSlideIndex r) (h_title prevState)
                 (history r) (historyIndex r - 1) false.
  Proof.
    unfold index_in_range. intros [Hlo Hhi] Hpos.
    destruct (get_in_range (history r) (historyIndex r - 1)) as [prevState Hget]; [lia|].
    exists prevState. split; [assumption|].
    unfold step, dispatch, handler, undo.
    assert (H : (0 <? historyIndex r) = true) by (apply Z.ltb_lt; lia).
    rewrite H, Hget. reflexivity.
  Qed.

  (** Below the capacity, undo right after a push restores the entry that was
      current before the push. *)
Lemma undo_after_push_below_capacity (s : AppState) newSlides newTitle before :
    index_in_range s ->
    Js.length (history s) < MAX_HISTORY ->
    Js.get (history s) (historyIndex s) = Some before ->
    let s' := step (step s (EvPush newSlides newTitle)) EvUndo in
    slides s' = h_slides before
    /\ presentationTitle s' = h_title before
    /\ historyIndex s' = historyIndex s.
  Proof.
    intros Hin Hlen Hget.
    destruct (push_below_capacity s newSlides newTitle Hin Hlen) as (Hh & Hi & Hlast & _).
    pose proof (get_Some_lt _ _ _ Hget) as Hrange.
    cbv zeta. set (p := step s (EvPush newSlides newTitle)) in *.
    assert (Hprev : Js.get (history p) (historyIndex p - 1) = Some before).
    { rewrite Hh, Hi. replace (historyIndex s + 1 - 1) with (historyIndex s) by lia.
      unfold Js.get in *. unfold Js.length in Hrange.
      destruct (historyIndex s <? 0); [discriminate|].
      rewrite nth_error_app1 by (rewrite length_firstn; lia).
      rewrite nth_error_firstn.
      assert (Hlt : (Z.to_nat (historyIndex s) <? Z.to_nat (historyIndex s + 1))%nat = true)
        by (apply Nat.ltb_lt; lia).
      rewrite Hlt. assumption. }
    destruct (undo_in_range p) as (prevState & Hg & Hstep).
    { unfold index_in_range. lia. }
    { lia. }
    rewrite Hstep. cbn [slides presentationTitle historyIndex].
    assert (prevState = before) by congruence. subst prevState.
    repeat split. lia.
  Qed.

End LinearHistory.

(** ** The log at its capacity *)

Ltac conjuncts := repeat match goal with |- _ /\ _ => split end.

(** C1.  Thirty pushes onto an empty log leave 30 entries with the index on the
    last one (29).  The next push drops the oldest entry and keeps 30 entries,
    but the index becomes 30: it is past the last entry (29), names no entry,
    and the range [-1, length-1] is broken. *)
Theorem push_at_capacity_index_out_of_range :
  let full := pushed 30 in
  let after := step full (pushVersion 30) in
  (Js.length (history full) = 30 /\ historyIndex full = 29)
  /\ history after = tl (history full) ++ [version 30]
  /\ Js.length (history after) = 30
  /\ historyIndex after = 30
  /\ Js.get (history after) (historyIndex after) = None
  /\ Js.get (history after) 29 = Some (version 30)
  /\ ~ index_in_range after.
Proof.
  cbv zeta. conjuncts; try (vm_compute; reflexivity).
  unfold index_in_range.
  replace (historyIndex (step (pushed 30) (pushVersion 30))) with 30
    by (vm_compute; reflexivity).
  replace (Js.length (history (step (pushed 30) (pushVersion 30)))) with 30
    by (vm_compute; reflexivity).
  lia.
Qed.

(** C5.  No sequence of pushes grows the log past 30 entries, and the entries
    dropped are the oldest ones.  But after the second push at capacity (32
    pushes in all) the index is 31 while the entries are numbered 0 to 29, so
    undo reads an entry that is not there and stops with a TypeError: nothing
    is restored, the restoration flag stays raised, and every further undo
    fails the same way. *)
Theorem second_overflow_push_breaks_undo :
  (forall n, Js.length (history (pushed n)) <= 30)
  /\ history (pushed 32) = map version (seq 2 30)
  /\ historyIndex (pushed 32) = 31
  /\ thrown (undo (pushed 32)) = [TypeError]
  /\ step (pushed 32) EvUndo =
       mkApp (slides (pushed 32)) (currentSlideIndex (pushed 32))
             (presentationTitle (pushed 32)) (history (pushed 32)) 31 true
  /\ thrown (undo (step (pushed 32) EvUndo)) = [TypeError]
  /\ redo (pushed 32) = [].
Proof.
  split.
  - intros n. unfold pushed. apply (steps_bounded _ emptyApp). vm_compute. discriminate.
  - conjuncts; vm_compute; reflexivity.
Qed.

(** C6.  On a log of 30 entries with the index on the last one (version 29),
    a push of version 30 followed at once by undo restores version 30, the
    snapshot just pushed, and not version 29, the one that preceded it. *)
Theorem undo_after_push_at_capacity_restores_pushed :
  let full := pushed 30 in
  let after := step (step full (pushVersion 30)) EvUndo in
  Js.get (history full) (historyIndex full) = Some (version 29)
  /\ slides after = h_slides (version 30)
  /\ presentationTitle after = h_title (version 30)
  /\ historyIndex after = 29
  /\ slides after <> h_slides (version 29).
Proof.
  cbv zeta. conjuncts; try (vm_compute; reflexivity).
  vm_compute. discriminate.
Qed.

(** C7.  On a log of 30 entries with the index on the last one, a push leaves
    the index at 30 while the last entry is number 29: the index is not
    length-1.  (Redo is a no-op there all the same.) *)
Theorem push_at_capacity_index_not_last :
  let after := step (pushed 30) (pushVersion 30) in
  historyIndex after = 30
  /\ Js.length (history after) - 1 = 29
  /\ historyIndex after <> Js.length (history after) - 1
  /\ redo after = [].
Proof.
  cbv zeta. conjuncts; try (vm_compute; reflexivity).
  vm_compute. discriminate.
Qed.

(** ** Checkpoints on blur ([saveSnapshot]) *)

Section SaveSnapshot.

Lemma json_equal_true (a b : list Slide) : json_equal a b = true <-> a = b.
  Proof.
    unfold json_equal. destruct (list_eq_dec Slide_eq_dec a b); split; congruence.
  Qed.

Lemma json_equal_refl (a : list Slide) : json_equal a a = true.
  Proof. apply json_equal_true. reflexivity. Qed.

  (** A handler that issues no call leaves the state as it was. *)
Lemma dispatch_nothing (h : AppState -> list call) (s : AppState) :
    h s = [] -> dispatch h s = s.
  Proof. intros H. unfold dispatch. rewrite H. reflexivity. Qed.

  (** While a restoration is in flight nothing is recorded. *)
Lemma saveSnapshot_while_restoring (r : AppState) :
    isRestoringHistory r = true -> saveSnapshot r = [].
  Proof. intros H. unfold saveSnapshot. rewrite H. reflexivity. Qed.

Lemma saveSnapshot_same_slides (r : AppState) :
    currentEntrySlides r = Some (slides r) -> saveSnapshot r = [].
  Proof.
    unfold currentEntrySlides, saveSnapshot. intros H.
    destruct (isRestoringHistory r); [reflexivity|].
    destruct (Js.get (history r) (historyIndex r)) as [lastState|]; [|discriminate].
    cbn in H. injection H as H. rewrite H, json_equal_refl. reflexivity.
  Qed.

Lemma saveSnapshot_other_slides (r : AppState) :
    isRestoringHistory r = false ->
    currentEntrySlides r <> Some (slides r) ->
    saveSnapshot r = [PushToHistory (slides r) (presentationTitle r)].
  Proof.
    unfold currentEntrySlides, saveSnapshot. intros Hflag H. rewrite Hflag.
    destruct (Js.get (history r) (historyIndex r)) as [lastState|]; [|reflexivity].
    destruct (json_equal (h_slides lastState) (slides r)) eqn:Heq; [|reflexivity].
    apply json_equal_true in Heq. cbn in H. congruence.
  Qed.

End SaveSnapshot.

(** C2, counterexample.  The title of the deck was changed and its slides were
    not: the deck differs from the entry at the index, yet [saveSnapshot]
    pushes nothing, so the change of title is deduplicated away. *)
Lemma saveSnapshot_drops_title_change :
  Js.get (history retitled) (historyIndex retitled) = Some (mkEntry (slides retitled) "Deck")
  /\ presentationTitle retitled <> "Deck"
  /\ isRestoringHistory retitled = false
  /\ pushes (saveSnapshot retitled) = []
  /\ step retitled EvSaveSnapshot = retitled.
Proof.
  conjuncts; try (vm_compute; reflexivity). vm_compute. discriminate.
Qed.

(** C2, amended.  With no restoration in flight, [saveSnapshot] compares the
    slides of the deck, and not its title, with the slides of the entry at the
    index.  Equal slides push nothing, whatever the titles, and leave the
    state as it is.  Different slides, or no entry at the index, push exactly
    one entry holding the deck.  On a log below its capacity with the index in
    range that entry is recorded: the log becomes the entries up to the index
    followed by the one new entry, with the index on it, whereas equal slides
    leave log and index untouched; and a second [saveSnapshot] with no change
    in between adds nothing more. *)
Theorem saveSnapshot_compares_slides_only (r : AppState) :
  isRestoringHistory r = false ->
  (currentEntrySlides r = Some (slides r) ->
     saveSnapshot r = [] /\ step r EvSaveSnapshot = r)
  /\ (currentEntrySlides r <> Some (slides r) ->
     pushes (saveSnapshot r) = [mkEntry (slides r) (presentationTitle r)])
  /\ (index_in_range r -> Js.length (history r) < MAX_HISTORY ->
     let once := step r EvSaveSnapshot in
     let twice := step once EvSaveSnapshot in
     twice = once
     /\ (currentEntrySlides r = Some (slides r) ->
         history once = history r /\ historyIndex once = historyIndex r)
     /\ (currentEntrySlides r <> Some (slides r) ->
         history once = firstn (Z.to_nat (historyIndex r + 1)) (history r)
                          ++ [mkEntry (slides r) (presentationTitle r)]
         /\ historyIndex once = historyIndex r + 1
         /\ Js.get (history once) (historyIndex once)
            = Some (mkEntry (slides r) (presentationTitle r)))).
Proof.
  intros Hflag. conjuncts.
  - intros Hsame. pose proof (saveSnapshot_same_slides r Hsame) as Hnone.
    split; [assumption|]. apply dispatch_nothing. assumption.
  - intros Hother. rewrite (saveSnapshot_other_slides r Hflag Hother). reflexivity.
  - intros Hin Hlen. cbv zeta.
    destruct (option_eq_dec (list_eq_dec Slide_eq_dec)
                (currentEntrySlides r) (Some (slides r))) as [Hsame | Hother].
    + pose proof (saveSnapshot_same_slides r Hsame) as Hnone.
      assert (Hstep : step r EvSaveSnapshot = r) by (apply dispatch_nothing; assumption).
      rewrite !Hstep. conjuncts; auto. intros Hother. contradiction.
    + pose proof (saveSnapshot_other_slides r Hflag Hother) as Hone.
      assert (Hstep : step r EvSaveSnapshot
                      = step r (EvPush (slides r) (presentationTitle r))).
      { unfold step, dispatch, handler, push. rewrite Hone. reflexivity. }
      destruct (push_below_capacity r (slides r) (presentationTitle r) Hin Hlen)
        as (Hh & Hi & _ & Hget).
      rewrite Hstep. conjuncts.
      * apply dispatch_nothing. apply saveSnapshot_same_slides.
        unfold currentEntrySlides. rewrite Hget. reflexivity.
      * intros Hsame. contradiction.
      * intros _. auto.
Qed.

Lemma saveSnapshot_compares_slides_only_witness :
  pushes (saveSnapshot edited) = [mkEntry (slides edited) (presentationTitle edited)]
  /\ step (step edited EvSaveSnapshot) EvSaveSnapshot = step edited EvSaveSnapshot
  /\ history (step edited EvSaveSnapshot)
     = history edited ++ [mkEntry (slides edited) (presentationTitle edited)]
  /\ historyIndex (step edited EvSaveSnapshot) = 1
  /\ (saveSnapshot retitled = [] /\ step retitled EvSaveSnapshot = retitled)
  /\ history (step retitled EvSaveSnapshot) = history retitled.
Proof.
  destruct (saveSnapshot_compares_slides_only edited eq_refl) as (_ & Hpush & Hlog).
  destruct (saveSnapshot_compares_slides_only retitled eq_refl) as (Hsame & _ & Hkept).
  assert (Hedited : currentEntrySlides edited <> Some (slides edited))
    by (vm_compute; discriminate).
  assert (Hin : index_in_range edited)
    by (unfold index_in_range; vm_compute; split; discriminate).
  assert (Hin' : index_in_range retitled)
    by (unfold index_in_range; vm_compute; split; discriminate).
  destruct (Hlog Hin eq_refl) as (Htwice & _ & Hnew).
  destruct (Hnew Hedited) as (Hhistory & Hindex & _).
  destruct (Hkept Hin' eq_refl) as (_ & Hold & _).
  split; [|split; [|split; [|split; [|split]]]].
  - apply Hpush. exact Hedited.
  - exact Htwice.
  - exact Hhistory.
  - exact Hindex.
  - apply Hsame. reflexivity.
  - apply Hold. reflexivity.
Defined.

(** ** The index below the capacity *)

Section RangeBelowCapacity.

Lemma redo_in_range (r : AppState) :
  index_in_range r -> historyIndex r < Js.length (history r) - 1 ->
  exists nextState,
    Js.get (history r) (historyIndex r + 1) = Some nextState
    /\ step r EvRedo =
         mkApp (h_slides nextState) (currentSlideIndex r) (h_title nextState)
               (history r) (historyIndex r + 1) false.
Proof.
  unfold index_in_range. intros [Hlo Hhi] Hmore.
  destruct (get_in_range (history r) (historyIndex r + 1)) as [nextState Hget]; [lia|].
  exists nextState. split; [assumption|].
  unfold step, dispatch, handler, redo.
  assert (H : (historyIndex r <? Js.length (history r) - 1) = true)
    by (apply Z.ltb_lt; lia).
  rewrite H, Hget. reflexivity.
Qed.

Lemma redo_at_end (r : AppState) :
  Js.length (history r) - 1 <= historyIndex r -> redo r = [] /\ step r EvRedo = r.
Proof.
  intros Hend. unfold step, dispatch, handler, redo.
  assert (H : (historyIndex r <? Js.length (history r) - 1) = false)
    by (apply Z.ltb_ge; lia).
  rewrite H. split; reflexivity.
Qed.

Lemma saveSnapshot_cases (r : AppState) :
  saveSnapshot r = []
  \/ saveSnapshot r = [PushToHistory (slides r) (presentationTitle r)].
Proof.
  unfold saveSnapshot. destruct (isRestoringHistory r); [auto|].
  destruct (Js.get (history r) (historyIndex r)) as [lastState|]; [|auto].
  destruct (json_equal (h_slides lastState) (slides r)); auto.
Qed.

(** On a log with fewer than 30 entries, push, undo, redo and saveSnapshot
    all keep the index within [-1, length-1]. *)
Lemma history_event_in_range (s : AppState) (e : event) :
  history_event e = true ->
  index_in_range s ->
  Js.length (history s) < MAX_HISTORY ->
  index_in_range (step s e).
Proof.
  intros He Hin Hlen. destruct e; try discriminate.
  - destruct (push_below_capacity s newSlides newTitle Hin Hlen) as (_ & Hi & Hlast & _).
    unfold index_in_range in *. lia.
  - destruct (Z.le_gt_cases (historyIndex s) 0) as [Hstart | Hpos].
    + destruct (undo_at_start s Hstart) as [_ ->]. assumption.
    + destruct (undo_in_range s Hin) as (prevState & _ & ->); [lia|].
      unfold index_in_range in *. cbn [history historyIndex]. lia.
  - destruct (Z.le_gt_cases (Js.length (history s) - 1) (historyIndex s)) as [Hend | Hmore].
    + destruct (redo_at_end s Hend) as [_ ->]. assumption.
    + destruct (redo_in_range s Hin) as (nextState & _ & ->); [lia|].
      unfold index_in_range in *. cbn [history historyIndex]. lia.
  - destruct (saveSnapshot_cases s) as [Hnone | Hone].
    + unfold step. cbn [handler]. rewrite dispatch_nothing by assumption. assumption.
    + assert (Hstep : step s EvSaveSnapshot
                      = step s (EvPush (slides s) (presentationTitle s))).
      { unfold step, dispatch, handler, push. rewrite Hone. reflexivity. }
      rewrite Hstep.
      destruct (push_below_capacity s (slides s) (presentationTitle s) Hin Hlen)
        as (_ & Hi & Hlast & _).
      unfold index_in_range in *. lia.
Qed.

(** An editing operation pushes twice from one closure: the second push
    slices the log at the index of the render the handler belongs to, so the
    checkpoint taken before the deletion is replaced by the one taken after
    it while the index moves two steps, past the last entry. *)
Example deleteSlide_log :
  history (step twoSlides (EvDelete 0))
    = [ mkEntry [sampleSlide "a"; sampleSlide "b"] "Deck";
        mkEntry [sampleSlide "b"] "Deck" ]
  /\ historyIndex (step twoSlides (EvDelete 0)) = 2.
Proof. split; reflexivity. Qed.

End RangeBelowCapacity.

(** ** The generation client *)

Section Client.

Variable w : World.

Lemma getAiClient_cases :
    getAiClient w = Returned tt \/ getAiClient w = Raised ApiKeyNotFound.
  Proof. unfold getAiClient. destruct (truthy (API_KEY w)); auto. Qed.

  (** A [try] whose handler returns null never lets an error out. *)
Lemma try_catch_null {A} (body : completion (option A)) (e : JsError) :
    try_catch body (fun _ => Returned None) <> Raised e.
  Proof. destruct body; cbn; discriminate. Qed.

Lemma try_catch_raised {A} (body : completion (option A)) (e : JsError) :
    body = Raised e -> try_catch body (fun _ => Returned None) = Returned None.
  Proof. intros ->. reflexivity. Qed.

Lemma generateSlideImage_escape (prompt : string) (e : JsError) :
    generateSlideImage w prompt = Raised e ->
    e = ApiKeyNotFound /\ getAiClient w = Raised ApiKeyNotFound.
  Proof.
    unfold generateSlideImage.
    destruct getAiClient_cases as [Hkey | Hkey]; rewrite Hkey; cbn [bind].
    - intros H. apply try_catch_null in H. contradiction.
    - intros H. injection H as <-. auto.
  Qed.

Lemma generateSlideVideo_escape (prompt : string) (e : JsError) :
    generateSlideVideo w prompt = Raised e ->
    e = ApiKeyNotFound /\ getAiClient w = Raised ApiKeyNotFound.
  Proof.
    unfold generateSlideVideo.
    destruct getAiClient_cases as [Hkey | Hkey]; rewrite Hkey; cbn [bind].
    - intros H. apply try_catch_null in H. contradiction.
    - intros H. injection H as <-. auto.
  Qed.

  (** The download loop always ends: with a locator, with null after three
      404 answers, or with the error of the third attempt. *)
Lemma fetchAttempt_ends (i : nat) : fetchAttempt w i <> Pending.
  Proof.
    unfold fetchAttempt. destruct (fetch w i) as [res | e]; cbn; [|discriminate].
    destruct (ok res).
    - destruct (blob res); cbn; discriminate.
    - destruct (status res =? 404); discriminate.
  Qed.

Lemma fetchLoop_ends (remaining i : nat) : fetchLoop w i remaining <> Pending.
  Proof.
    revert i. induction remaining as [|more IH]; intros i; cbn [fetchLoop]; [discriminate|].
    pose proof (fetchAttempt_ends i) as Hattempt.
    destruct (fetchAttempt w i) as [[url|] | e |]; try discriminate; auto.
    destruct (Nat.eqb i 2); [discriminate | auto].
  Qed.

  (** Polling ends as soon as an answer is rejected or reports completion. *)
Lemma poll_ends (answers : list (promise Operation)) (operation : Operation) :
    Exists (fun answer => match answer with
                          | Resolves next => done next = true
                          | Rejects _ => True
                          end) answers ->
    poll operation answers <> Pending.
  Proof.
    intros Hends. revert operation.
    induction Hends as [answer rest Hnow | answer rest Hlater IH]; intros operation;
      cbn [poll]; destruct (done operation); try discriminate.
    - destruct answer as [next | e]; [|discriminate].
      destruct rest; cbn [poll]; rewrite Hnow; discriminate.
    - destruct answer as [next | e]; [apply IH | discriminate].
  Qed.

Lemma poll_done (operation : Operation) (answers : list (promise Operation)) :
    done operation = true -> poll operation answers = Returned operation.
  Proof. intros H. destruct answers; cbn [poll]; rewrite H; reflexivity. Qed.

End Client.

(** C10.  Whatever the service answers and whatever the prompt, an error can
    leave [generateSlideImage] or [generateSlideVideo] only as the
    missing-API-key error of the client construction, and without a key it
    does leave them.  With a key, a rejected generation request, a rejected
    poll and a download that fails on its last attempt all end in a null
    result, the very result of a service that produced nothing, so the caller
    cannot tell the two apart. *)
Theorem client_failures_surface_as_null (w : World) (prompt : string) :
  (forall e, generateSlideImage w prompt = Raised e ->
     e = ApiKeyNotFound /\ getAiClient w = Raised ApiKeyNotFound)
  /\ (forall e, generateSlideVideo w prompt = Raised e ->
     e = ApiKeyNotFound /\ getAiClient w = Raised ApiKeyNotFound)
  /\ (getAiClient w = Raised ApiKeyNotFound ->
     generateSlideImage w prompt = Raised ApiKeyNotFound
     /\ generateSlideVideo w prompt = Raised ApiKeyNotFound)
  /\ (getAiClient w = Returned tt ->
     (forall e, generateImages w (prompt ++ IMAGE_STYLE)%string = Rejects e ->
        generateSlideImage w prompt = Returned None
        /\ generateSlideImage (withEmptyImage w) prompt = Returned None)
     /\ (forall e, generateVideos w (prompt ++ VIDEO_STYLE)%string = Rejects e ->
        generateSlideVideo w prompt = Returned None
        /\ generateSlideVideo (withEmptyVideo w) prompt = Returned None)
     /\ (forall started e,
        generateVideos w (prompt ++ VIDEO_STYLE)%string = Resolves started ->
        poll started (getVideosOperation w) = Raised e ->
        generateSlideVideo w prompt = Returned None)
     /\ (forall started operation uri e,
        generateVideos w (prompt ++ VIDEO_STYLE)%string = Resolves started ->
        poll started (getVideosOperation w) = Returned operation ->
        truthy (videoUri operation) = Some uri ->
        fetchLoop w 0 3 = Raised e ->
        generateSlideVideo w prompt = Returned None)).
Proof.
  conjuncts.
  - apply generateSlideImage_escape.
  - apply generateSlideVideo_escape.
  - unfold generateSlideImage, generateSlideVideo. intros ->. split; reflexivity.
  - intros Hkey. conjuncts.
    + intros e Hreq. split.
      * unfold generateSlideImage. rewrite Hkey. cbn [bind].
        apply try_catch_raised with (e := e). rewrite Hreq. reflexivity.
      * unfold generateSlideImage, getAiClient in *. cbn [API_KEY withEmptyImage].
        rewrite Hkey. reflexivity.
    + intros e Hreq. split.
      * unfold generateSlideVideo. rewrite Hkey. cbn [bind].
        apply try_catch_raised with (e := e). rewrite Hreq. reflexivity.
      * unfold generateSlideVideo, getAiClient in *.
        cbn [API_KEY generateVideos getVideosOperation withEmptyVideo].
        rewrite Hkey. cbn [bind await]. rewrite poll_done by reflexivity. reflexivity.
    + intros started e Hreq Hpoll.
      unfold generateSlideVideo. rewrite Hkey. cbn [bind].
      apply try_catch_raised with (e := e). rewrite Hreq. cbn [await bind].
      rewrite Hpoll. reflexivity.
    + intros started operation uri e Hreq Hpoll Huri Hfetch.
      unfold generateSlideVideo. rewrite Hkey. cbn [bind].
      apply try_catch_raised with (e := e). rewrite Hreq. cbn [await bind].
      rewrite Hpoll. cbn [bind]. rewrite Huri. assumption.
Qed.

Lemma client_failures_surface_as_null_witness :
  (generateSlideImage noKeyWorld "a harbour" = Raised ApiKeyNotFound
   /\ generateSlideVideo noKeyWorld "a harbour" = Raised ApiKeyNotFound)
  /\ (generateSlideImage failingWorld "a harbour" = Returned None
      /\ generateSlideImage (withEmptyImage failingWorld) "a harbour" = Returned None)
  /\ (generateSlideVideo failingWorld "a harbour" = Returned None
      /\ generateSlideVideo (withEmptyVideo failingWorld) "a harbour" = Returned None)
  /\ generateSlideVideo pollFailsWorld "a harbour" = Returned None
  /\ generateSlideVideo downloadFailsWorld "a harbour" = Returned None.
Proof.
  destruct (client_failures_surface_as_null noKeyWorld "a harbour")
    as (_ & _ & Hnokey & _).
  destruct (client_failures_surface_as_null failingWorld "a harbour")
    as (_ & _ & _ & Hfailing).
  destruct (Hfailing eq_refl) as (Himage & Hvideo & _ & _).
  destruct (client_failures_surface_as_null pollFailsWorld "a harbour")
    as (_ & _ & _ & Hpolling).
  destruct (Hpolling eq_refl) as (_ & _ & Hpoll & _).
  destruct (client_failures_surface_as_null downloadFailsWorld "a harbour")
    as (_ & _ & _ & Hdownloading).
  destruct (Hdownloading eq_refl) as (_ & _ & _ & Hdownload).
  split; [|split; [|split; [|split]]].
  - apply Hnokey. reflexivity.
  - apply (Himage SdkError). reflexivity.
  - apply (Hvideo SdkError). reflexivity.
  - apply (Hpoll (mkOperation false None) SdkError); reflexivity.
  - apply (Hdownload (mkOperation true (Some "https://video.example/v?alt=media"))
             (mkOperation true (Some "https://video.example/v?alt=media"))
             "https://video.example/v?alt=media" (HttpError 500)); reflexivity.
Defined.

(** ** The media workflow *)

Section MediaWorkflow.

Variable w : World.
Variable slideId : string.

Lemma withLoading_id (s : Slide) b k : id (withLoading s b k) = id s.
  Proof. reflexivity. Qed.

Lemma withMedia_id (s : Slide) url k : id (withMedia s url k) = id s.
  Proof. reflexivity. Qed.

  (** The slides named [slideId] after [mapSlide] are images of [f]. *)
Lemma mapSlide_target (f : Slide -> Slide) (l : list Slide) (s' : Slide) :
    (forall s, id (f s) = id s) ->
    In s' (mapSlide slideId f l) -> id s' = slideId ->
    exists s, In s l /\ id s = slideId /\ s' = f s.
  Proof.
    intros Hid Hin Hname. unfold mapSlide in Hin.
    apply in_map_iff in Hin. destruct Hin as (s & Hs & Hl).
    destruct (String.eqb (id s) slideId) eqn:Heq.
    - apply String.eqb_eq in Heq. exists s. auto.
    - apply String.eqb_neq in Heq. subst s'. contradiction.
  Qed.

Lemma mapSlide_keeps_target (f : Slide -> Slide) (l : list Slide) (s : Slide) :
    In s l -> id s = slideId -> In (f s) (mapSlide slideId f l).
  Proof.
    intros Hin Hname. unfold mapSlide. apply in_map_iff. exists s.
    apply String.eqb_eq in Hname. rewrite Hname. auto.
  Qed.

Lemma find_by_id (l : list Slide) (slide : Slide) :
    find (fun s => String.eqb (id s) slideId) l = Some slide ->
    In slide l /\ id slide = slideId.
  Proof.
    intros H. apply find_some in H. destruct H as [Hin Heq].
    apply String.eqb_eq in Heq. auto.
  Qed.

  (** With a key no request of the job raises: it returns or keeps polling. *)
Lemma mediaJob_with_key (slide : Slide) (type : MediaRequest) (e : JsError) :
    getAiClient w = Returned tt -> mediaJob w slide type <> Raised e.
  Proof.
    intros Hkey Hraised. unfold mediaJob in Hraised.
    destruct type;
      [apply generateSlideImage_escape in Hraised
      | apply generateSlideVideo_escape in Hraised];
      destruct Hraised as [_ Hnokey]; congruence.
  Qed.

Lemma mediaJob_raises_for_key_only (slide : Slide) (type : MediaRequest) (e : JsError) :
    mediaJob w slide type = Raised e -> e = ApiKeyNotFound.
  Proof.
    unfold mediaJob. intros Hraised.
    destruct type;
      [apply generateSlideImage_escape in Hraised
      | apply generateSlideVideo_escape in Hraised];
      tauto.
  Qed.

End MediaWorkflow.

(** When the slide is in the deck and the client returns null for an image
    job, the handler calls [pushToHistory] twice, with the deck before the job
    and with the deck the job leaves, shows no notice, and every slide with
    that id (there is one) ends with media kind none, no media locator and
    the loading flag false. *)
Lemma null_result_job_trace
    (w : World) (slideId : string) (r : AppState) (slide : Slide) :
  find (fun s => String.eqb (id s) slideId) (slides r) = Some slide ->
  generateSlideImage w (activePrompt w slide) = Returned None ->
  let trace := generateMediaForSlide w slideId RequestImage r in
  let after := dispatch (generateMediaForSlide w slideId RequestImage) r in
  pushes trace = [ mkEntry (slides r) (presentationTitle r);
                   mkEntry (slides after) (presentationTitle r) ]
  /\ alerts trace = []
  /\ (exists s, In s (slides after) /\ id s = slideId)
  /\ (forall s, In s (slides after) -> id s = slideId ->
        mediaType s = MediaNone /\ mediaUrl s = None /\ isLoadingMedia s = Some false).
Proof.
  intros Hfind Hnull. cbv zeta.
  assert (Htrace : generateMediaForSlide w slideId RequestImage r =
    [ PushToHistory (slides r) (presentationTitle r);
      SetSlides (mapSlide slideId (fun s => withLoading s true Image));
      SetSlides (fun _ => mapSlide slideId (fun s => withMedia s None MediaNone) (slides r));
      PushToHistory (mapSlide slideId (fun s => withMedia s None MediaNone) (slides r))
                    (presentationTitle r) ]).
  { unfold generateMediaForSlide. rewrite Hfind. unfold mediaJob. rewrite Hnull.
    reflexivity. }
  assert (Hafter : slides (dispatch (generateMediaForSlide w slideId RequestImage) r)
                   = mapSlide slideId (fun s => withMedia s None MediaNone) (slides r)).
  { unfold dispatch. rewrite Htrace. reflexivity. }
  rewrite Hafter, Htrace. destruct (find_by_id slideId _ _ Hfind) as [Hin Hname].
  conjuncts.
  - reflexivity.
  - reflexivity.
  - exists (withMedia slide None MediaNone). split; [|assumption].
    apply (mapSlide_keeps_target slideId (fun s => withMedia s None MediaNone));
      assumption.
  - intros s Hs Hid.
    destruct (mapSlide_target slideId (fun s0 => withMedia s0 None MediaNone) _ _
                (fun s0 => withMedia_id s0 None MediaNone) Hs Hid)
      as (s0 & _ & _ & ->).
    auto.
Qed.

(** Both pushes of a completed job come from the same closure, so the second
    one slices the log at the index of the render the job started in: on a
    session with one entry the post-job checkpoint takes the place of the
    pre-job one, and the index moves two steps. *)
Example completed_job_log :
  let after :=
    dispatch (generateMediaForSlide emptyWorld "a" RequestImage) (editor [illustrated]) in
  history after = [ mkEntry [illustrated] "Deck";
                    mkEntry [withMedia illustrated None MediaNone] "Deck" ]
  /\ historyIndex after = 2.
Proof. split; reflexivity. Qed.

(** C8.  A slide whose title was edited since the last checkpoint is
    regenerated and the client returns null.  The slide ends with media kind
    none, no media locator and the loading flag false, and [pushToHistory] is
    called twice, with the deck before the job and with the deck after it.
    But both calls slice the log at the index of the render the job started
    in: the log, which held one entry, holds two afterwards, the old entry and
    the post-job checkpoint.  The pre-job checkpoint is not in the log, so
    one checkpoint was recorded, not two, and the index, moved two steps, is
    past the last entry. *)
Theorem null_result_job_records_one_checkpoint :
  let r := uncheckpointed in
  let trace := generateMediaForSlide emptyWorld "a" RequestImage r in
  let after := dispatch (generateMediaForSlide emptyWorld "a" RequestImage) r in
  generateSlideImage emptyWorld (activePrompt emptyWorld quay) = Returned None
  /\ slides after = [withMedia quay None MediaNone]
  /\ pushes trace = [ mkEntry [quay] "Deck";
                      mkEntry [withMedia quay None MediaNone] "Deck" ]
  /\ history r = [mkEntry [illustrated] "Deck"]
  /\ history after = [ mkEntry [illustrated] "Deck";
                       mkEntry [withMedia quay None MediaNone] "Deck" ]
  /\ ~ In (mkEntry [quay] "Deck") (history after)
  /\ historyIndex after = 2
  /\ Js.get (history after) (historyIndex after) = None.
Proof.
  cbv zeta. conjuncts; try reflexivity.
  vm_compute. intros [H | [H | []]]; discriminate.
Qed.

(** C4, counterexample.  The image request is rejected by the service: the
    generation failed, yet the job shows no notice; the slide is reset to no
    media as for an empty result, and the post-job checkpoint is pushed. *)
Lemma rejected_generation_shows_no_notice :
  let r := editor [sampleSlide "a"] in
  let trace := generateMediaForSlide failingWorld "a" RequestImage r in
  generateImages failingWorld
    (activePrompt failingWorld (sampleSlide "a") ++ IMAGE_STYLE)%string = Rejects SdkError
  /\ alerts trace = []
  /\ List.length (pushes trace) = 2%nat
  /\ slides (dispatch (generateMediaForSlide failingWorld "a" RequestImage) r)
     = [withMedia (sampleSlide "a") None MediaNone].
Proof. cbv zeta. conjuncts; reflexivity. Qed.

(** C4, amended.  For a slide that is in the deck: if the call chain raises,
    which it does for the missing API key only, the job shows the failure
    notice, pushes the pre-job checkpoint and nothing else, so the log is the
    one that single push leaves, and every slide with that id ends with the
    loading flag false and media kind none.  A null result shows no notice
    and resets the media kind to none.  With an API key no failure of the
    service raises, so none produces a notice. *)
Theorem raised_failure_resets_and_notifies
    (w : World) (slideId : string) (type : MediaRequest) (r : AppState) (slide : Slide) :
  find (fun s => String.eqb (id s) slideId) (slides r) = Some slide ->
  let trace := generateMediaForSlide w slideId type r in
  let after := dispatch (generateMediaForSlide w slideId type) r in
  (forall e, mediaJob w slide type = Raised e ->
     e = ApiKeyNotFound
     /\ alerts trace = [FAILURE_NOTICE]
     /\ pushes trace = [mkEntry (slides r) (presentationTitle r)]
     /\ history after = history (step r (EvPush (slides r) (presentationTitle r)))
     /\ historyIndex after = historyIndex (step r (EvPush (slides r) (presentationTitle r)))
     /\ (forall s, In s (slides after) -> id s = slideId ->
           isLoadingMedia s = Some false /\ mediaType s = MediaNone))
  /\ (mediaJob w slide type = Returned None ->
     alerts trace = []
     /\ (forall s, In s (slides after) -> id s = slideId ->
           isLoadingMedia s = Some false /\ mediaType s = MediaNone))
  /\ (getAiClient w = Returned tt -> alerts trace = []).
Proof.
  intros Hfind. cbv zeta. conjuncts.
  - intros e Hraised.
    assert (Htrace : generateMediaForSlide w slideId type r =
      [ PushToHistory (slides r) (presentationTitle r);
        SetSlides (mapSlide slideId (fun s => withLoading s true (requested type)));
        ConsoleError e;
        SetSlides (mapSlide slideId (fun s => withLoading s false MediaNone));
        Alert FAILURE_NOTICE ]).
    { unfold generateMediaForSlide. rewrite Hfind, Hraised. reflexivity. }
    unfold dispatch. rewrite Htrace.
    split; [exact (mediaJob_raises_for_key_only w slide type e Hraised)|].
    conjuncts; try reflexivity.
    cbn. intros s Hs Hid.
    destruct (mapSlide_target slideId (fun s0 => withLoading s0 false MediaNone) _ _
                (fun s0 => withLoading_id s0 false MediaNone) Hs Hid)
      as (s0 & _ & _ & ->).
    auto.
  - intros Hnull.
    assert (Htrace : generateMediaForSlide w slideId type r =
      [ PushToHistory (slides r) (presentationTitle r);
        SetSlides (mapSlide slideId (fun s => withLoading s true (requested type)));
        SetSlides (fun _ => mapSlide slideId (fun s => withMedia s None MediaNone) (slides r));
        PushToHistory (mapSlide slideId (fun s => withMedia s None MediaNone) (slides r))
                      (presentationTitle r) ]).
    { unfold generateMediaForSlide. rewrite Hfind, Hnull. reflexivity. }
    unfold dispatch. rewrite Htrace. split; [reflexivity|].
    cbn. intros s Hs Hid.
    destruct (mapSlide_target slideId (fun s0 => withMedia s0 None MediaNone) _ _
                (fun s0 => withMedia_id s0 None MediaNone) Hs Hid)
      as (s0 & _ & _ & ->).
    auto.
  - intros Hkey. unfold generateMediaForSlide. rewrite Hfind.
    pose proof (mediaJob_with_key w slide type) as Hnoraise.
    destruct (mediaJob w slide type) as [url | e |]; try reflexivity.
    exfalso. apply (Hnoraise e Hkey). reflexivity.
Qed.

Lemma raised_failure_resets_and_notifies_witness :
  let r := editor [sampleSlide "a"] in
  (alerts (generateMediaForSlide noKeyWorld "a" RequestImage r) = [FAILURE_NOTICE]
   /\ pushes (generateMediaForSlide noKeyWorld "a" RequestImage r)
      = [mkEntry (slides r) (presentationTitle r)])
  /\ alerts (generateMediaForSlide emptyWorld "a" RequestVideo r) = []
  /\ alerts (generateMediaForSlide failingWorld "a" RequestImage r) = [].
Proof.
  cbv zeta.
  destruct (raised_failure_resets_and_notifies noKeyWorld "a" RequestImage
              (editor [sampleSlide "a"]) (sampleSlide "a") eq_refl) as (Hraised & _ & _).
  destruct (raised_failure_resets_and_notifies emptyWorld "a" RequestVideo
              (editor [sampleSlide "a"]) (sampleSlide "a") eq_refl) as (_ & Hnull & _).
  destruct (raised_failure_resets_and_notifies failingWorld "a" RequestImage
              (editor [sampleSlide "a"]) (sampleSlide "a") eq_refl) as (_ & _ & Hkey).
  destruct (Hraised ApiKeyNotFound eq_refl) as (_ & Halert & Hpush & _).
  split; [split; assumption|].
  split; [apply Hnull; reflexivity | apply Hkey; reflexivity].
Defined.

(** C3.  A slide that carries an image is regenerated while the API key is
    missing.  The call chain raises, and the failure path sets the media kind
    to none but keeps the old media locator: the deck, consistent before the
    job, now holds a slide with a locator and media kind none. *)
Theorem failed_regeneration_keeps_stale_locator :
  let r := editor [illustrated] in
  let after := dispatch (generateMediaForSlide noKeyWorld "a" RequestImage) r in
  forallb media_consistent (slides r) = true
  /\ mediaJob noKeyWorld illustrated RequestImage = Raised ApiKeyNotFound
  /\ slides after =
       [ mkSlide "a" SplitRight "Harbour" None ["first point"] "a harbour at dawn"
                 MediaNone (Some "data:image/jpeg;base64,AAAA") (Some false) None ]
  /\ forallb media_consistent (slides after) = false.
Proof. cbv zeta. conjuncts; reflexivity. Qed.

(** ** Deleting slides *)

Section DeleteSlide.

  (** Past the index nothing is filtered out. *)
Lemma filter_index_ne_past {A} (a : list A) (i index : Z) :
    index < i -> Js.filter_index_ne a i index = a.
  Proof.
    revert i. induction a as [|x rest IH]; intros i Hi; cbn; [reflexivity|].
    destruct (i =? index) eqn:Heq; [apply Z.eqb_eq in Heq; lia|].
    rewrite IH by lia. reflexivity.
  Qed.

  (** The filter removes at most one element. *)
Lemma filter_index_ne_length {A} (a : list A) (i index : Z) :
    (List.length a <= S (List.length (Js.filter_index_ne a i index)))%nat.
  Proof.
    revert i. induction a as [|x rest IH]; intros i; cbn; [lia|].
    destruct (i =? index) eqn:Heq.
    - apply Z.eqb_eq in Heq. rewrite filter_index_ne_past by lia. lia.
    - cbn. specialize (IH (i + 1)). lia.
  Qed.

Lemma deleteSlide_slides (s : AppState) (index : Z) :
    slides (step s (EvDelete index)) =
      if Js.length (slides s) <=? 1 then slides s
      else Js.filter_index_ne (slides s) 0 index.
  Proof.
    unfold step, dispatch, handler, deleteSlide.
    destruct (Js.length (slides s) <=? 1); [reflexivity|].
    destruct ((index <=? currentSlideIndex s) && (0 <? currentSlideIndex s));
      reflexivity.
  Qed.

Lemma deleteSlide_keeps_one (s : AppState) (index : Z) :
    1 <= Js.length (slides s) -> 1 <= Js.length (slides (step s (EvDelete index))).
  Proof.
    intros Hone. rewrite deleteSlide_slides.
    destruct (Js.length (slides s) <=? 1) eqn:Hlast; [assumption|].
    apply Z.leb_gt in Hlast. unfold Js.length in *.
    pose proof (filter_index_ne_length (slides s) 0 index). lia.
  Qed.

End DeleteSlide.

(** C9.  On a deck of exactly one slide, [deleteSlide] at any index shows the
    notice and does nothing else: no checkpoint is pushed and the state, deck
    included, is unchanged.  Hence a deck with at least one slide still has
    one after any sequence of deletions. *)
Theorem deleteSlide_never_empties_deck (r : AppState) (index : Z) (indices : list Z) :
  (Js.length (slides r) = 1 ->
     deleteSlide index r = [Alert LAST_SLIDE_NOTICE]
     /\ step r (EvDelete index) = r)
  /\ (1 <= Js.length (slides r) -> 1 <= Js.length (slides (deletions r indices))).
Proof.
  split.
  - intros Hone. unfold step, dispatch, handler, deleteSlide. rewrite Hone.
    split; reflexivity.
  - unfold deletions, steps. revert r.
    induction indices as [|i rest IH]; intros r Hone; cbn [map fold_left]; [assumption|].
    apply IH. apply deleteSlide_keeps_one. assumption.
Qed.

Lemma deleteSlide_never_empties_deck_witness :
  (deleteSlide 0 (editor [illustrated]) = [Alert LAST_SLIDE_NOTICE]
   /\ step (editor [illustrated]) (EvDelete 0) = editor [illustrated])
  /\ 1 <= Js.length (slides (deletions (editor [sampleSlide "a"; sampleSlide "b"; illustrated])
                                       [1; 0; 0; 5])).
Proof.
  split.
  - apply (deleteSlide_never_empties_deck (editor [illustrated]) 0 []). reflexivity.
  - apply (deleteSlide_never_empties_deck
             (editor [sampleSlide "a"; sampleSlide "b"; illustrated]) 0 [1; 0; 0; 5]).
    vm_compute. discriminate.
Defined.

(** * The rest of the editor *)

(** ** Splicing *)

Section Splice.

Context {A : Type}.

Lemma firstn_prefix (pre rest : list A) : firstn (List.length pre) (pre ++ rest) = pre.
Proof. induction pre as [|x pre IH]; cbn; [destruct rest; reflexivity | now rewrite IH]. Qed.

Lemma skipn_prefix (pre rest : list A) : skipn (List.length pre) (pre ++ rest) = rest.
Proof. induction pre as [|x pre IH]; cbn; [reflexivity | assumption]. Qed.

Lemma nth_error_prefix (pre rest : list A) (x : A) :
  nth_error (pre ++ x :: rest) (List.length pre) = Some x.
Proof. induction pre as [|y pre IH]; cbn; [reflexivity | assumption]. Qed.

Lemma splice_start_inside (len start : Z) :
  0 <= start <= len -> splice_start len start = start.
Proof.
  intros H. unfold splice_start.
  destruct (start <? 0) eqn:Hneg; [apply Z.ltb_lt in Hneg; lia | lia].
Qed.

Lemma splice_remove_at (pre rest : list A) (x : A) :
  splice_remove (pre ++ x :: rest) (Z.of_nat (List.length pre)) = (Some x, pre ++ rest).
Proof.
  unfold splice_remove, Js.length.
  rewrite splice_start_inside by (rewrite length_app; cbn; lia).
  rewrite Nat2Z.id, nth_error_prefix, firstn_prefix.
  change (S (List.length pre)) with (1 + List.length pre)%nat.
  rewrite <- skipn_skipn, skipn_prefix. reflexivity.
Qed.

Lemma splice_insert_at (pre rest : list A) (x : A) :
  splice_insert (pre ++ rest) (Z.of_nat (List.length pre)) x = pre ++ x :: rest.
Proof.
  unfold splice_insert, Js.length.
  rewrite splice_start_inside by (rewrite length_app; lia).
  rewrite Nat2Z.id, firstn_prefix, skipn_prefix. reflexivity.
Qed.

Lemma splice_insert_length (a : list A) (start : Z) (x : A) :
  List.length (splice_insert a start x) = S (List.length a).
Proof.
  unfold splice_insert.
  set (k := Z.to_nat (splice_start (Js.length a) start)).
  rewrite <- (firstn_skipn k a) at 3. rewrite !length_app. cbn. lia.
Qed.

Lemma filter_index_ne_at (pre rest : list A) (x : A) (i : Z) :
  Js.filter_index_ne (pre ++ x :: rest) i (i + Z.of_nat (List.length pre)) = pre ++ rest.
Proof.
  revert i. induction pre as [|y pre IH]; intros i.
  - cbn [app List.length Js.filter_index_ne].
    replace (i + Z.of_nat 0) with i by lia. rewrite Z.eqb_refl.
    apply filter_index_ne_past. lia.
  - cbn [app List.length Js.filter_index_ne].
    destruct (i =? i + Z.of_nat (S (List.length pre))) eqn:Heq;
      [apply Z.eqb_eq in Heq; lia|].
    replace (i + Z.of_nat (S (List.length pre)))
      with ((i + 1) + Z.of_nat (List.length pre)) by lia.
    rewrite IH. reflexivity.
Qed.

(** Every array with an element at [k] splits around it. *)
Lemma split_at (a : list A) (k : nat) (x : A) :
  nth_error a k = Some x ->
  exists pre rest, a = pre ++ x :: rest /\ List.length pre = k.
Proof.
  intros H. apply nth_error_split in H. destruct H as (pre & rest & Ha & Hk).
  exists pre, rest. auto.
Qed.

End Splice.

(** ** Structural edits of the deck *)

Section StructuralEdits.

Lemma get_at_prefix {A} (pre rest : list A) (x : A) :
  Js.get (pre ++ x :: rest) (Z.of_nat (List.length pre)) = Some x.
Proof.
  unfold Js.get.
  destruct (Z.of_nat (List.length pre) <? 0) eqn:Hneg; [apply Z.ltb_lt in Hneg; lia|].
  rewrite Nat2Z.id. apply nth_error_prefix.
Qed.

Lemma get_nat {A} (a : list A) (k : nat) : Js.get a (Z.of_nat k) = nth_error a k.
Proof.
  unfold Js.get.
  destruct (Z.of_nat k <? 0) eqn:Hneg; [apply Z.ltb_lt in Hneg; lia|].
  rewrite Nat2Z.id. reflexivity.
Qed.

Lemma get_negative {A} (a : list A) (i : Z) : i < 0 -> Js.get a i = None.
Proof. intros H. unfold Js.get. apply Z.ltb_lt in H. rewrite H. reflexivity. Qed.

Lemma deleteSlide_selection (s : AppState) (index : Z) :
  currentSlideIndex (perform s (DoDelete index)) =
    if Js.length (slides s) <=? 1 then currentSlideIndex s
    else if (index <=? currentSlideIndex s) && (0 <? currentSlideIndex s)
         then currentSlideIndex s - 1
         else currentSlideIndex s.
Proof.
  unfold perform, dispatch, gesture_handler, deleteSlide.
  destruct (Js.length (slides s) <=? 1); [reflexivity|].
  destruct ((index <=? currentSlideIndex s) && (0 <? currentSlideIndex s));
    reflexivity.
Qed.

Lemma moveSlide_up_effect (r : AppState) (pre post : list Slide) (a b : Slide) :
  slides r = pre ++ a :: b :: post ->
  let i := Z.of_nat (List.length pre) in
  let after := perform r (DoMove (i + 1) Up) in
  slides after = pre ++ b :: a :: post
  /\ currentSlideIndex after =
       (if currentSlideIndex r =? i + 1 then i
        else if currentSlideIndex r =? i then i + 1
        else currentSlideIndex r).
Proof.
  intros Hdeck. cbv zeta.
  unfold perform, dispatch, gesture_handler, moveSlide.
  assert (Hnot0 : (Z.of_nat (List.length pre) + 1 =? 0) = false) by (apply Z.eqb_neq; lia).
  rewrite Hnot0.
  assert (Hremove : splice_remove (slides r) (Z.of_nat (List.length pre) + 1)
                    = (Some b, pre ++ a :: post)).
  { rewrite Hdeck.
    replace (pre ++ a :: b :: post) with ((pre ++ [a]) ++ b :: post)
      by (rewrite <- app_assoc; reflexivity).
    replace (Z.of_nat (List.length pre) + 1) with (Z.of_nat (List.length (pre ++ [a])))
      by (rewrite length_app; cbn; lia).
    rewrite splice_remove_at, <- app_assoc. reflexivity. }
  rewrite Hremove.
  replace (Z.of_nat (List.length pre) + 1 - 1) with (Z.of_nat (List.length pre)) by lia.
  rewrite splice_insert_at.
  destruct (currentSlideIndex r =? Z.of_nat (List.length pre) + 1) eqn:Hsel.
  - split; reflexivity.
  - destruct (currentSlideIndex r =? Z.of_nat (List.length pre)); split; reflexivity.
Qed.

Lemma moveSlide_down_effect (r : AppState) (pre post : list Slide) (a b : Slide) :
  slides r = pre ++ a :: b :: post ->
  let i := Z.of_nat (List.length pre) in
  let after := perform r (DoMove i Down) in
  slides after = pre ++ b :: a :: post
  /\ currentSlideIndex after =
       (if currentSlideIndex r =? i then i + 1
        else if currentSlideIndex r =? i + 1 then i
        else currentSlideIndex r).
Proof.
  intros Hdeck. cbv zeta.
  unfold perform, dispatch, gesture_handler, moveSlide.
  assert (Hnotlast : (Z.of_nat (List.length pre) =? Js.length (slides r) - 1) = false).
  { apply Z.eqb_neq. unfold Js.length. rewrite Hdeck, length_app. cbn. lia. }
  rewrite Hnotlast.
  assert (Hremove : splice_remove (slides r) (Z.of_nat (List.length pre))
                    = (Some a, pre ++ b :: post)).
  { rewrite Hdeck. apply splice_remove_at. }
  rewrite Hremove.
  assert (Hinsert : splice_insert (pre ++ b :: post) (Z.of_nat (List.length pre) + 1) a
                    = pre ++ b :: a :: post).
  { replace (pre ++ b :: post) with ((pre ++ [b]) ++ post)
      by (rewrite <- app_assoc; reflexivity).
    replace (Z.of_nat (List.length pre) + 1) with (Z.of_nat (List.length (pre ++ [b])))
      by (rewrite length_app; cbn; lia).
    rewrite splice_insert_at, <- app_assoc. reflexivity. }
  rewrite Hinsert.
  destruct (currentSlideIndex r =? Z.of_nat (List.length pre)) eqn:Hsel.
  - split; reflexivity.
  - destruct (currentSlideIndex r =? Z.of_nat (List.length pre) + 1); split; reflexivity.
Qed.

(** The slide at a position of a deck with two neighbours swapped. *)
Lemma get_swapped {A} (pre post : list A) (a b : A) (k : Z) :
  let i := Z.of_nat (List.length pre) in
  Js.get (pre ++ b :: a :: post) k =
    if k =? i then Some b
    else if k =? i + 1 then Some a
    else Js.get (pre ++ a :: b :: post) k.
Proof.
  cbv zeta. destruct (k =? Z.of_nat (List.length pre)) eqn:Hi.
  - apply Z.eqb_eq in Hi. subst k. apply get_at_prefix.
  - apply Z.eqb_neq in Hi.
    destruct (k =? Z.of_nat (List.length pre) + 1) eqn:Hi1.
    + apply Z.eqb_eq in Hi1. subst k.
      replace (pre ++ b :: a :: post) with ((pre ++ [b]) ++ a :: post)
        by (rewrite <- app_assoc; reflexivity).
      replace (Z.of_nat (List.length pre) + 1) with (Z.of_nat (List.length (pre ++ [b])))
        by (rewrite length_app; cbn; lia).
      apply get_at_prefix.
    + apply Z.eqb_neq in Hi1.
      destruct (Z.lt_ge_cases k 0) as [Hneg | Hpos];
        [rewrite !get_negative by assumption; reflexivity|].
      rewrite <- (Z2Nat.id k Hpos), !get_nat.
      destruct (Nat.lt_ge_cases (Z.to_nat k) (List.length pre)) as [Hlt | Hge].
      * rewrite !nth_error_app1 by assumption. reflexivity.
      * rewrite !nth_error_app2 by assumption.
        destruct (Z.to_nat k - List.length pre)%nat as [|[|m]] eqn:Hm; try lia.
        reflexivity.
Qed.

End StructuralEdits.

Lemma split_pair {A} (a : list A) (k : nat) :
  (S k < List.length a)%nat ->
  exists pre x y post, a = pre ++ x :: y :: post /\ List.length pre = k.
Proof.
  intros Hk.
  destruct (nth_error a k) as [x|] eqn:Hx;
    [|apply nth_error_None in Hx; lia].
  destruct (split_at a k x Hx) as (pre & rest & Ha & Hpre).
  destruct rest as [|y post].
  - subst a. rewrite length_app in Hk. cbn in Hk. lia.
  - exists pre, x, y, post. auto.
Qed.

(** X1.  Moving a slide up, or the slide before it down, swaps the two
    neighbours and leaves the rest of the deck in place; the selection keeps
    pointing at the slide it pointed at. *)
Theorem moveSlide_swaps_neighbours
    (r : AppState) (pre post : list Slide) (a b : Slide) :
  slides r = pre ++ a :: b :: post ->
  let i := Z.of_nat (List.length pre) in
  let up := perform r (DoMove (i + 1) Up) in
  let down := perform r (DoMove i Down) in
  slides up = pre ++ b :: a :: post
  /\ slides down = pre ++ b :: a :: post
  /\ Js.get (slides up) (currentSlideIndex up) = Js.get (slides r) (currentSlideIndex r)
  /\ Js.get (slides down) (currentSlideIndex down) = Js.get (slides r) (currentSlideIndex r).
Proof.
  intros Hdeck. cbv zeta.
  destruct (moveSlide_up_effect r pre post a b Hdeck) as [Hup Hupsel].
  destruct (moveSlide_down_effect r pre post a b Hdeck) as [Hdown Hdownsel].
  cbv zeta in Hup, Hupsel, Hdown, Hdownsel.
  rewrite Hup, Hdown, Hupsel, Hdownsel, Hdeck.
  pose proof (get_swapped pre post a b) as Hnew. cbv zeta in Hnew.
  assert (Ha : Js.get (pre ++ a :: b :: post) (Z.of_nat (List.length pre)) = Some a)
    by apply get_at_prefix.
  assert (Hb : Js.get (pre ++ a :: b :: post) (Z.of_nat (List.length pre) + 1) = Some b).
  { pose proof (get_swapped pre post b a (Z.of_nat (List.length pre) + 1)) as H.
    cbv zeta in H. rewrite H.
    destruct (Z.of_nat (List.length pre) + 1 =? Z.of_nat (List.length pre)) eqn:E;
      [apply Z.eqb_eq in E; lia|].
    rewrite Z.eqb_refl. reflexivity. }
  conjuncts; try reflexivity.
  - destruct (currentSlideIndex r =? Z.of_nat (List.length pre) + 1) eqn:E1.
    + apply Z.eqb_eq in E1. rewrite E1, Hb, Hnew, Z.eqb_refl. reflexivity.
    + destruct (currentSlideIndex r =? Z.of_nat (List.length pre)) eqn:E0.
      * apply Z.eqb_eq in E0. rewrite E0, Ha, Hnew.
        destruct (Z.of_nat (List.length pre) + 1 =? Z.of_nat (List.length pre)) eqn:E;
          [apply Z.eqb_eq in E; lia|].
        rewrite Z.eqb_refl. reflexivity.
      * rewrite Hnew, E0, E1. reflexivity.
  - destruct (currentSlideIndex r =? Z.of_nat (List.length pre)) eqn:E0.
    + apply Z.eqb_eq in E0. rewrite E0, Ha, Hnew.
      destruct (Z.of_nat (List.length pre) + 1 =? Z.of_nat (List.length pre)) eqn:E;
        [apply Z.eqb_eq in E; lia|].
      rewrite Z.eqb_refl. reflexivity.
    + destruct (currentSlideIndex r =? Z.of_nat (List.length pre) + 1) eqn:E1.
      * apply Z.eqb_eq in E1. rewrite E1, Hb, Hnew, Z.eqb_refl. reflexivity.
      * rewrite Hnew, E0, E1. reflexivity.
Qed.

Lemma moveSlide_swaps_neighbours_witness :
  slides (perform threeSlides (DoMove 1 Up)) = [sampleSlide "b"; sampleSlide "a"; illustrated]
  /\ slides (perform threeSlides (DoMove 0 Down))
     = [sampleSlide "b"; sampleSlide "a"; illustrated]
  /\ Js.get (slides (perform threeSlides (DoMove 1 Up)))
            (currentSlideIndex (perform threeSlides (DoMove 1 Up)))
     = Js.get (slides threeSlides) (currentSlideIndex threeSlides)
  /\ Js.get (slides (perform threeSlides (DoMove 0 Down)))
            (currentSlideIndex (perform threeSlides (DoMove 0 Down)))
     = Js.get (slides threeSlides) (currentSlideIndex threeSlides).
Proof.
  exact (moveSlide_swaps_neighbours threeSlides [] [illustrated]
           (sampleSlide "a") (sampleSlide "b") eq_refl).
Defined.

(** X2.  Moving a slide up and then moving that same slide, from the place
    it has reached, down again gives back the deck and the selection. *)
Theorem moveSlide_up_then_down
    (r : AppState) (pre post : list Slide) (a b : Slide) :
  slides r = pre ++ a :: b :: post ->
  let i := Z.of_nat (List.length pre) in
  let back := perform (perform r (DoMove (i + 1) Up)) (DoMove i Down) in
  slides back = slides r /\ currentSlideIndex back = currentSlideIndex r.
Proof.
  intros Hdeck. cbv zeta.
  destruct (moveSlide_up_effect r pre post a b Hdeck) as [Hup Hupsel].
  cbv zeta in Hup, Hupsel.
  destruct (moveSlide_down_effect (perform r (DoMove (Z.of_nat (List.length pre) + 1) Up))
              pre post b a Hup) as [Hback Hbacksel].
  cbv zeta in Hback, Hbacksel.
  rewrite Hback, Hbacksel, Hupsel, Hdeck. split; [reflexivity|].
  destruct (currentSlideIndex r =? Z.of_nat (List.length pre) + 1) eqn:E1.
  - apply Z.eqb_eq in E1. rewrite Z.eqb_refl. lia.
  - destruct (currentSlideIndex r =? Z.of_nat (List.length pre)) eqn:E0.
    + apply Z.eqb_eq in E0.
      destruct (Z.of_nat (List.length pre) + 1 =? Z.of_nat (List.length pre)) eqn:E;
        [apply Z.eqb_eq in E; lia|].
      rewrite Z.eqb_refl. lia.
    + rewrite E0, E1. reflexivity.
Qed.

Lemma moveSlide_up_then_down_witness :
  slides (perform (perform threeSlides (DoMove 2 Up)) (DoMove 1 Down)) = slides threeSlides
  /\ currentSlideIndex (perform (perform threeSlides (DoMove 2 Up)) (DoMove 1 Down))
     = currentSlideIndex threeSlides.
Proof.
  exact (moveSlide_up_then_down threeSlides [sampleSlide "a"] []
           (sampleSlide "b") illustrated eq_refl).
Defined.

(** X3.  For an index inside the deck, [moveSlide] in either direction only
    reorders the deck: the slides after the move are a permutation of the
    slides before it (at the top going up and at the bottom going down
    nothing moves at all). *)
Theorem moveSlide_permutes_deck (r : AppState) (fromIndex : Z) (direction : Direction) :
  0 <= fromIndex < Js.length (slides r) ->
  Permutation (slides (perform r (DoMove fromIndex direction))) (slides r).
Proof.
  unfold Js.length. intros Hin. destruct direction.
  - destruct (Z.eq_dec fromIndex 0) as [-> | Hpos].
    + unfold perform, dispatch, gesture_handler, moveSlide. cbn. reflexivity.
    + destruct (split_pair (slides r) (Z.to_nat (fromIndex - 1))) as (pre & a & b & post & Hdeck & Hpre);
        [lia|].
      destruct (moveSlide_up_effect r pre post a b Hdeck) as [Hup _]. cbv zeta in Hup.
      replace (Z.of_nat (List.length pre) + 1) with fromIndex in Hup by lia.
      rewrite Hup, Hdeck. apply Permutation_app_head. apply perm_swap.
  - destruct (Z.eq_dec fromIndex (Js.length (slides r) - 1)) as [Hlast | Hmore].
    + unfold perform, dispatch, gesture_handler, moveSlide.
      apply Z.eqb_eq in Hlast. rewrite Hlast. cbn. reflexivity.
    + unfold Js.length in Hmore.
      destruct (split_pair (slides r) (Z.to_nat fromIndex)) as (pre & a & b & post & Hdeck & Hpre);
        [lia|].
      destruct (moveSlide_down_effect r pre post a b Hdeck) as [Hdown _]. cbv zeta in Hdown.
      replace (Z.of_nat (List.length pre)) with fromIndex in Hdown by lia.
      rewrite Hdown, Hdeck. apply Permutation_app_head. apply perm_swap.
Qed.

Lemma moveSlide_permutes_deck_witness :
  Permutation (slides (perform threeSlides (DoMove 2 Up))) (slides threeSlides).
Proof.
  apply (moveSlide_permutes_deck threeSlides 2 Up). vm_compute.
  split; [discriminate | reflexivity].
Defined.

Lemma get_map {A B} (f : A -> B) (a : list A) (k : Z) :
  Js.get (map f a) k = option_map f (Js.get a k).
Proof.
  unfold Js.get. destruct (k <? 0); [reflexivity|]. apply nth_error_map.
Qed.

(** X4.  On a deck of two slides or more, [deleteSlide] at an index inside
    the deck removes exactly the slide at that index and keeps the others in
    order; a selection that was inside the deck stays inside it, and unless
    the deleted slide was the selected one the same slide stays selected. *)
Theorem deleteSlide_removes_that_slide
    (r : AppState) (pre rest : list Slide) (x : Slide) :
  slides r = pre ++ x :: rest ->
  pre ++ rest <> [] ->
  0 <= currentSlideIndex r < Js.length (slides r) ->
  let index := Z.of_nat (List.length pre) in
  let after := perform r (DoDelete index) in
  slides after = pre ++ rest
  /\ 0 <= currentSlideIndex after < Js.length (slides after)
  /\ (currentSlideIndex r <> index ->
      Js.get (slides after) (currentSlideIndex after)
      = Js.get (slides r) (currentSlideIndex r)).
Proof.
  intros Hdeck Hmore Hsel. cbv zeta.
  assert (Hlen : List.length (pre ++ rest) <> 0%nat).
  { destruct (pre ++ rest); [contradiction | discriminate]. }
  assert (Htwo : (Js.length (slides r) <=? 1) = false).
  { apply Z.leb_gt. unfold Js.length. rewrite Hdeck.
    rewrite length_app in *. cbn. lia. }
  assert (Hslides : slides (perform r (DoDelete (Z.of_nat (List.length pre)))) = pre ++ rest).
  { change (perform r (DoDelete (Z.of_nat (List.length pre))))
      with (step r (EvDelete (Z.of_nat (List.length pre)))).
    rewrite deleteSlide_slides, Htwo, Hdeck.
    apply (filter_index_ne_at pre rest x 0). }
  rewrite Hslides, deleteSlide_selection, Htwo.
  unfold Js.length in *. rewrite Hdeck in *. rewrite length_app in *. cbn in Hsel.
  destruct (Z.of_nat (List.length pre) <=? currentSlideIndex r) eqn:Hge;
    [apply Z.leb_le in Hge | apply Z.leb_gt in Hge];
    (destruct (0 <? currentSlideIndex r) eqn:Hpos;
      [apply Z.ltb_lt in Hpos | apply Z.ltb_ge in Hpos]); cbn [andb].
  - conjuncts; try reflexivity; try lia.
    intros Hother.
    rewrite <- (Z2Nat.id (currentSlideIndex r - 1)) by lia.
    rewrite <- (Z2Nat.id (currentSlideIndex r)) at 2 by lia.
    rewrite !get_nat, !nth_error_app2 by lia.
    replace (Z.to_nat (currentSlideIndex r) - List.length pre)%nat
      with (S (Z.to_nat (currentSlideIndex r - 1) - List.length pre)) by lia.
    reflexivity.
  - conjuncts; try reflexivity; lia.
  - conjuncts; try reflexivity; try lia.
    intros _.
    rewrite <- (Z2Nat.id (currentSlideIndex r)) by lia.
    rewrite !get_nat, !nth_error_app1 by lia. reflexivity.
  - conjuncts; try reflexivity; try lia.
    intros _.
    rewrite <- (Z2Nat.id (currentSlideIndex r)) by lia.
    rewrite !get_nat, !nth_error_app1 by lia. reflexivity.
Qed.

Lemma deleteSlide_removes_that_slide_witness :
  slides (perform threeSlides (DoDelete 0)) = [sampleSlide "b"; illustrated]
  /\ 0 <= currentSlideIndex (perform threeSlides (DoDelete 0))
       < Js.length (slides (perform threeSlides (DoDelete 0)))
  /\ (currentSlideIndex threeSlides <> 0 ->
      Js.get (slides (perform threeSlides (DoDelete 0)))
             (currentSlideIndex (perform threeSlides (DoDelete 0)))
      = Js.get (slides threeSlides) (currentSlideIndex threeSlides)).
Proof.
  apply (deleteSlide_removes_that_slide threeSlides [] [sampleSlide "b"; illustrated]
           (sampleSlide "a")).
  - reflexivity.
  - discriminate.
  - vm_compute. split; [discriminate | reflexivity].
Defined.

(** X5.  [addSlide] puts the new slide right after the selected one, keeps the
    slides before and after it in order, and selects the new slide; the new
    slide carries no media. *)
Theorem addSlide_inserts_after_selection
    (now : nat) (r : AppState) (pre post : list Slide) :
  slides r = pre ++ post ->
  currentSlideIndex r + 1 = Z.of_nat (List.length pre) ->
  let after := perform r (DoAdd now) in
  slides after = pre ++ newSlide now :: post
  /\ Js.get (slides after) (currentSlideIndex after) = Some (newSlide now)
  /\ mediaType (newSlide now) = MediaNone
  /\ mediaUrl (newSlide now) = None.
Proof.
  intros Hdeck Hsel. cbv zeta.
  unfold perform, dispatch, gesture_handler, addSlide. cbn.
  rewrite Hdeck, Hsel, splice_insert_at.
  conjuncts; try reflexivity. apply get_at_prefix.
Qed.

Lemma addSlide_inserts_after_selection_witness :
  slides (perform threeSlides (DoAdd 1700))
    = [sampleSlide "a"; sampleSlide "b"; newSlide 1700; illustrated]
  /\ Js.get (slides (perform threeSlides (DoAdd 1700)))
            (currentSlideIndex (perform threeSlides (DoAdd 1700)))
     = Some (newSlide 1700)
  /\ mediaType (newSlide 1700) = MediaNone
  /\ mediaUrl (newSlide 1700) = None.
Proof.
  apply (addSlide_inserts_after_selection 1700 threeSlides
           [sampleSlide "a"; sampleSlide "b"] [illustrated]); reflexivity.
Defined.

(** X6.  [changeLayout] does nothing when the selection points at no slide.
    Otherwise every slide that has the id of the selected slide, the selected
    one included, gets the new layout with all its other fields kept, and
    every other slide is left as it is. *)
Theorem changeLayout_rewrites_layout_only (newLayout : SlideLayout) (r : AppState) :
  (Js.get (slides r) (currentSlideIndex r) = None ->
     changeLayout newLayout r = [] /\ perform r (DoLayout newLayout) = r)
  /\ (forall current, Js.get (slides r) (currentSlideIndex r) = Some current ->
      let after := perform r (DoLayout newLayout) in
      currentSlideIndex after = currentSlideIndex r
      /\ forall k,
           Js.get (slides after) k =
             option_map (fun s => if String.eqb (id s) (id current)
                                  then withLayout newLayout s else s)
                        (Js.get (slides r) k)).
Proof.
  split.
  - intros Hnone. unfold perform, dispatch, gesture_handler, changeLayout.
    rewrite Hnone. split; reflexivity.
  - intros current Hsel. cbv zeta.
    unfold perform, dispatch, gesture_handler, changeLayout. rewrite Hsel. cbn.
    split; [reflexivity|]. intros k. apply get_map.
Qed.

Lemma changeLayout_rewrites_layout_only_witness :
  (changeLayout Data emptyApp = [] /\ perform emptyApp (DoLayout Data) = emptyApp)
  /\ Js.get (slides (perform threeSlides (DoLayout Data))) 1
     = Some (withLayout Data (sampleSlide "b")).
Proof.
  destruct (changeLayout_rewrites_layout_only Data emptyApp) as [Hnone _].
  destruct (changeLayout_rewrites_layout_only Data threeSlides) as [_ Hsome].
  split.
  - apply Hnone. reflexivity.
  - destruct (Hsome (sampleSlide "b") eq_refl) as [_ Hk]. rewrite Hk. reflexivity.
Defined.

(** ** What every gesture keeps *)

Section DeckInvariant.

Variable P : list Slide -> Prop.
Variable safe : World -> Prop.

Lemma Forall_firstn_of {A} (Q : A -> Prop) (a : list A) (n : nat) :
  Forall Q a -> Forall Q (firstn n a).
Proof.
  intros H. revert n. induction H as [|x a Hx Ha IH]; intros [|n]; cbn; auto.
Qed.

Lemma Forall_tl_of {A} (Q : A -> Prop) (a : list A) : Forall Q a -> Forall Q (tl a).
Proof. intros H. destruct H; cbn; auto. Qed.

Lemma pushToHistory_keeps (r s : AppState) newSlides newTitle :
  deck_inv P s -> P newSlides -> deck_inv P (pushToHistory r newSlides newTitle s).
Proof.
  intros [Hdeck Hlog] Hnew. split; [exact Hdeck|].
  unfold pushToHistory. cbn [history].
  assert (Hgrown : Forall (fun e => P (h_slides e))
                     (Js.slice0 (history s) (historyIndex r + 1)
                        ++ [mkEntry newSlides newTitle])).
  { apply Forall_app. split.
    - unfold Js.slice0. apply Forall_firstn_of. assumption.
    - constructor; [exact Hnew | constructor]. }
  destruct (MAX_HISTORY <? _); [apply Forall_tl_of|]; assumption.
Qed.

Lemma exec_keeps (r s : AppState) (c : call) :
  deck_inv P s -> call_keeps P c -> deck_inv P (exec r c s).
Proof.
  intros Hinv Hc. destruct c; cbn [exec]; try exact Hinv;
    try (destruct Hinv as [Hdeck Hlog]; split; [exact Hdeck | exact Hlog]).
  - destruct Hinv as [Hdeck Hlog]. split; [apply Hc; exact Hdeck | exact Hlog].
  - apply pushToHistory_keeps; assumption.
Qed.

Lemma run_keeps (r : AppState) (cs : list call) (s : AppState) :
  Forall (call_keeps P) cs -> deck_inv P s -> deck_inv P (run r cs s).
Proof.
  unfold run. intros Hcs. revert s.
  induction Hcs as [|c cs Hc Hcs IH]; intros s Hs; cbn [fold_left]; [assumption|].
  apply IH. apply exec_keeps; assumption.
Qed.

Lemma timers_keep (cs : list call) :
  Forall (call_keeps P) cs -> Forall (call_keeps P) (timers cs).
Proof.
  intros Hcs. unfold timers.
  induction Hcs as [|c cs Hc Hcs IH]; cbn [flat_map]; [constructor|].
  apply Forall_app. split; [|assumption].
  destruct c; try constructor; [exact Hc | constructor].
Qed.

Lemma dispatch_keeps (h : AppState -> list call) (s : AppState) :
  Forall (call_keeps P) (h s) -> deck_inv P s -> deck_inv P (dispatch h s).
Proof.
  intros Hcs Hs. unfold dispatch.
  apply run_keeps; [apply timers_keep; assumption|].
  apply run_keeps; assumption.
Qed.

Lemma entry_keeps (s : AppState) (i : Z) (e : HistoryEntry) :
  deck_inv P s -> Js.get (history s) i = Some e -> P (h_slides e).
Proof.
  intros [_ Hlog] Hget. unfold Js.get in Hget.
  destruct (i <? 0); [discriminate|].
  apply nth_error_In in Hget.
  rewrite Forall_forall in Hlog. apply Hlog. assumption.
Qed.

Hypothesis P_edit : forall slideId e l, P l -> P (mapSlide slideId (applyEdit e) l).
Hypothesis P_delete : forall l index,
  P l -> 1 < Js.length l -> P (Js.filter_index_ne l 0 index).
Hypothesis P_add : forall l start now, P l -> P (splice_insert l start (newSlide now)).
Hypothesis P_move : forall l i j moved rest,
  P l -> splice_remove l i = (Some moved, rest) -> P (splice_insert rest j moved).
Hypothesis P_layout : forall slideId newLayout l,
  P l -> P (mapSlide slideId (withLayout newLayout) l).
Hypothesis P_loading : forall slideId type l,
  P l -> P (mapSlide slideId (fun s => withLoading s true (requested type)) l).
Hypothesis P_media : forall slideId type url l,
  P l ->
  P (mapSlide slideId
       (fun s => withMedia s (truthy url)
                   (match truthy url with
                    | Some _ => requested type
                    | None => MediaNone
                    end)) l).
Hypothesis P_failure : forall w slide type e slideId l,
  safe w -> mediaJob w slide type = Raised e -> P l ->
  P (mapSlide slideId (fun s => withLoading s false MediaNone) l).

Lemma gesture_keeps (g : gesture) (r : AppState) :
  gesture_safe safe g -> deck_inv P r -> Forall (call_keeps P) (gesture_handler g r).
Proof.
  intros Hsafe Hinv. pose proof Hinv as [Hdeck Hlog].
  destruct g; cbn [gesture_handler gesture_safe] in *.
  - unfold undo. destruct (0 <? historyIndex r); [|constructor].
    constructor; [exact I|].
    destruct (Js.get (history r) (historyIndex r - 1)) as [prevState|] eqn:Hget.
    + repeat constructor. cbn. intros _ _. exact (entry_keeps r _ _ Hinv Hget).
    + repeat constructor.
  - unfold redo. destruct (historyIndex r <? Js.length (history r) - 1); [|constructor].
    constructor; [exact I|].
    destruct (Js.get (history r) (historyIndex r + 1)) as [nextState|] eqn:Hget.
    + repeat constructor. cbn. intros _ _. exact (entry_keeps r _ _ Hinv Hget).
    + repeat constructor.
  - destruct (saveSnapshot_cases r) as [-> | ->]; repeat constructor. exact Hdeck.
  - unfold handleSlideUpdate. repeat constructor. cbn. intros l. apply P_edit.
  - unfold deleteSlide. destruct (Js.length (slides r) <=? 1) eqn:Hlast;
      [repeat constructor|].
    apply Z.leb_gt in Hlast.
    assert (Hnew : P (Js.filter_index_ne (slides r) 0 index)) by (apply P_delete; assumption).
    destruct ((index <=? currentSlideIndex r) && (0 <? currentSlideIndex r));
      cbn [app]; repeat constructor; cbn; auto.
  - unfold addSlide.
    assert (Hnew : P (splice_insert (slides r) (currentSlideIndex r + 1) (newSlide now)))
      by (apply P_add; assumption).
    repeat constructor; cbn; auto.
  - unfold moveSlide.
    destruct (match direction with
              | Up => fromIndex =? 0
              | Down => fromIndex =? Js.length (slides r) - 1
              end); [constructor|].
    destruct (splice_remove (slides r) fromIndex) as [[movedSlide|] rest] eqn:Hremove.
    + set (toIndex := match direction with Up => fromIndex - 1 | Down => fromIndex + 1 end).
      assert (Hnew : P (splice_insert rest toIndex movedSlide))
        by (apply (P_move (slides r) fromIndex); assumption).
      destruct (currentSlideIndex r =? fromIndex);
        [|destruct (currentSlideIndex r =? toIndex)];
        cbn [app]; repeat constructor; cbn; auto.
    + repeat constructor. exact Hdeck.
  - unfold changeLayout.
    destruct (Js.get (slides r) (currentSlideIndex r)) as [current|]; [|constructor].
    assert (Hnew : P (mapSlide (id current) (withLayout newLayout) (slides r)))
      by (apply P_layout; assumption).
    repeat constructor; cbn; auto.
  - unfold generateMediaForSlide. constructor; [exact Hdeck|].
    destruct (find (fun s => String.eqb (id s) slideId) (slides r)) as [slide|];
      [|constructor].
    constructor; [cbn; intros l; apply P_loading|].
    destruct (mediaJob w slide type) as [url | e |] eqn:Hjob.
    + assert (Hnew : P (mapSlide slideId
                          (fun s => withMedia s (truthy url)
                                      (match truthy url with
                                       | Some _ => requested type
                                       | None => MediaNone
                                       end)) (slides r)))
        by (apply P_media; assumption).
      repeat constructor; cbn; auto.
    + repeat constructor. cbn. intros l. apply (P_failure w slide type e); assumption.
    + constructor.
Qed.

Lemma session_keeps (gs : list gesture) (s : AppState) :
  Forall (gesture_safe safe) gs -> deck_inv P s -> deck_inv P (session s gs).
Proof.
  unfold session. intros Hgs. revert s.
  induction Hgs as [|g gs Hg Hgs IH]; intros s Hs; cbn [fold_left]; [assumption|].
  apply IH. unfold perform. apply dispatch_keeps; [|assumption].
  apply gesture_keeps; assumption.
Qed.

End DeckInvariant.

Section DeckProperties.

Lemma mapSlide_populated (slideId : string) (f : Slide -> Slide) (l : list Slide) :
  populated l -> populated (mapSlide slideId f l).
Proof. unfold populated, mapSlide. destruct l; [contradiction | discriminate]. Qed.

Lemma splice_insert_populated (l : list Slide) (start : Z) (x : Slide) :
  populated (splice_insert l start x).
Proof.
  unfold populated. intros H.
  pose proof (splice_insert_length l start x) as Hlen. rewrite H in Hlen. discriminate.
Qed.

Lemma filter_index_ne_populated (l : list Slide) (index : Z) :
  1 < Js.length l -> populated (Js.filter_index_ne l 0 index).
Proof.
  unfold populated, Js.length. intros Hlen H.
  pose proof (filter_index_ne_length l 0 index) as Hle. rewrite H in Hle. cbn in Hle. lia.
Qed.

Lemma all_consistent_In (l : list Slide) :
  all_consistent l <-> forall s, In s l -> media_consistent s = true.
Proof. unfold all_consistent. apply forallb_forall. Qed.

Lemma all_consistent_incl (l l' : list Slide) :
  (forall s, In s l' -> In s l) -> all_consistent l -> all_consistent l'.
Proof. rewrite !all_consistent_In. auto. Qed.

Lemma all_consistent_map (slideId : string) (f : Slide -> Slide) (l : list Slide) :
  (forall s, media_consistent s = true -> media_consistent (f s) = true) ->
  all_consistent l -> all_consistent (mapSlide slideId f l).
Proof.
  rewrite !all_consistent_In. intros Hf Hl s Hs. unfold mapSlide in Hs.
  apply in_map_iff in Hs. destruct Hs as (s0 & <- & Hs0).
  destruct (String.eqb (id s0) slideId); auto.
Qed.

Lemma In_filter_index_ne (l : list Slide) (i index : Z) (s : Slide) :
  In s (Js.filter_index_ne l i index) -> In s l.
Proof.
  revert i. induction l as [|x l IH]; intros i; cbn; [auto|].
  destruct (i =? index); cbn; intros H; [right | destruct H; [left | right]]; eauto.
Qed.

Lemma In_splice_insert (l : list Slide) (start : Z) (x s : Slide) :
  In s (splice_insert l start x) -> s = x \/ In s l.
Proof.
  unfold splice_insert. set (k := Z.to_nat _). intros H.
  apply in_app_or in H. destruct H as [H | [H | H]].
  - right. rewrite <- (firstn_skipn k l). apply in_or_app. auto.
  - left. auto.
  - right. rewrite <- (firstn_skipn k l). apply in_or_app. auto.
Qed.

Lemma In_splice_remove (l : list Slide) (start : Z) (moved : Slide) (rest : list Slide) :
  splice_remove l start = (Some moved, rest) ->
  In moved l /\ forall s, In s rest -> In s l.
Proof.
  unfold splice_remove. set (k := Z.to_nat _). intros H. injection H as Hmoved Hrest.
  split; [eapply nth_error_In; eassumption|].
  intros s Hs. subst rest. apply in_app_or in Hs. destruct Hs as [Hs | Hs].
  - rewrite <- (firstn_skipn k l). apply in_or_app. auto.
  - rewrite <- (firstn_skipn (S k) l). apply in_or_app. auto.
Qed.

Lemma applyEdit_consistent (e : SlideEdit) (s : Slide) :
  media_consistent s = true -> media_consistent (applyEdit e s) = true.
Proof. destruct e; cbn; auto. Qed.

Lemma withMedia_consistent (s : Slide) (url : option string) (type : MediaRequest) :
  media_consistent (withMedia s (truthy url)
                      (match truthy url with
                       | Some _ => requested type
                       | None => MediaNone
                       end)) = true.
Proof. destruct (truthy url); destruct type; reflexivity. Qed.

Lemma withLoading_requested_consistent (s : Slide) (type : MediaRequest) :
  media_consistent (withLoading s true (requested type)) = true.
Proof. unfold media_consistent. cbn. destruct (mediaUrl s); destruct type; reflexivity. Qed.

End DeckProperties.

Ltac solve_populated :=
  first [ apply splice_insert_populated
        | apply filter_index_ne_populated; assumption
        | apply mapSlide_populated; assumption ].

(** X7.  If the deck and every checkpoint of the log hold at least one slide,
    they still do after any sequence of gestures: edits, checkpoints, undo and
    redo, adding, moving and deleting slides, layout changes and media jobs,
    whatever the service answers. *)
Theorem session_never_empties_deck (s : AppState) (gs : list gesture) :
  deck_inv populated s -> deck_inv populated (session s gs).
Proof.
  apply (session_keeps populated (fun _ => True)); try (intros; solve_populated).
  apply Forall_forall. intros g _. destruct g; exact I.
Qed.

Lemma session_never_empties_deck_witness :
  deck_inv populated (session threeSlides sampleSession).
Proof.
  apply (session_never_empties_deck threeSlides sampleSession).
  split; [discriminate | repeat constructor; discriminate].
Defined.

(** X8.  As long as every media job runs with an API key, media consistency
    (a locator only with a media kind other than none) is kept by every
    gesture: if it holds of every slide of the deck and of every checkpoint,
    it still does after any sequence of gestures. *)
Theorem keyed_session_keeps_media_consistent (s : AppState) (gs : list gesture) :
  Forall (gesture_safe has_key) gs ->
  deck_inv all_consistent s -> deck_inv all_consistent (session s gs).
Proof.
  apply (session_keeps all_consistent has_key).
  - intros. apply all_consistent_map; [apply applyEdit_consistent | assumption].
  - intros l index Hl _. apply (all_consistent_incl l); [|assumption].
    intros s0. apply In_filter_index_ne.
  - intros l start now Hl. rewrite all_consistent_In in *. intros s0 Hs0.
    apply In_splice_insert in Hs0. destruct Hs0 as [-> | Hs0]; [reflexivity | auto].
  - intros l i j moved rest Hl Hremove.
    destruct (In_splice_remove l i moved rest Hremove) as [Hmoved Hrest].
    rewrite all_consistent_In in *. intros s0 Hs0.
    apply In_splice_insert in Hs0. destruct Hs0 as [-> | Hs0]; auto.
  - intros. apply all_consistent_map; [|assumption]. intros s0 Hs0. exact Hs0.
  - intros. apply all_consistent_map; [|assumption].
    intros s0 _. apply withLoading_requested_consistent.
  - intros. apply all_consistent_map; [|assumption].
    intros s0 _. apply withMedia_consistent.
  - intros w slide type e slideId l Hkey Hraised _.
    exfalso. exact (mediaJob_with_key w slide type e Hkey Hraised).
Qed.

Lemma keyed_session_keeps_media_consistent_witness :
  deck_inv all_consistent (session threeSlides keyedSession).
Proof.
  apply (keyed_session_keeps_media_consistent threeSlides keyedSession).
  - repeat constructor.
  - split; [reflexivity | repeat constructor].
Defined.

(** ** The shape of the log under every gesture *)

Section LogShape.

Lemma exec_index_ok (r s : AppState) (c : call) :
  index_call_ok c -> -1 <= historyIndex s -> -1 <= historyIndex (exec r c s).
Proof.
  intros Hc Hs. destruct c; cbn [exec historyIndex index_call_ok] in *; try assumption.
  unfold pushToHistory. cbn [historyIndex].
  destruct (MAX_HISTORY <? Js.length (history r)); lia.
Qed.

Lemma run_index_ok (r : AppState) (cs : list call) (s : AppState) :
  Forall index_call_ok cs -> -1 <= historyIndex s -> -1 <= historyIndex (run r cs s).
Proof.
  unfold run. intros Hcs. revert s.
  induction Hcs as [|c cs Hc Hcs IH]; intros s Hs; cbn [fold_left]; [assumption|].
  apply IH. apply exec_index_ok; assumption.
Qed.

Lemma timers_index_ok (cs : list call) :
  Forall index_call_ok cs -> Forall index_call_ok (timers cs).
Proof.
  intros Hcs. unfold timers.
  induction Hcs as [|c cs Hc Hcs IH]; cbn [flat_map]; [constructor|].
  apply Forall_app. split; [|assumption].
  destruct c; try constructor; [exact Hc | constructor].
Qed.

Lemma gesture_index_ok (g : gesture) (r : AppState) :
  -1 <= historyIndex r -> Forall index_call_ok (gesture_handler g r).
Proof.
  intros Hr. destruct g; cbn [gesture_handler].
  - unfold undo. destruct (0 <? historyIndex r) eqn:Hpos; [|constructor].
    apply Z.ltb_lt in Hpos.
    destruct (Js.get (history r) (historyIndex r - 1)); repeat constructor; cbn; lia.
  - unfold redo. destruct (historyIndex r <? Js.length (history r) - 1); [|constructor].
    destruct (Js.get (history r) (historyIndex r + 1)); repeat constructor; cbn; lia.
  - destruct (saveSnapshot_cases r) as [-> | ->]; repeat constructor.
  - repeat constructor.
  - unfold deleteSlide. destruct (Js.length (slides r) <=? 1); [repeat constructor|].
    destruct ((index <=? currentSlideIndex r) && (0 <? currentSlideIndex r));
      repeat constructor.
  - repeat constructor.
  - unfold moveSlide.
    destruct (match direction with
              | Up => fromIndex =? 0
              | Down => fromIndex =? Js.length (slides r) - 1
              end); [constructor|].
    destruct (splice_remove (slides r) fromIndex) as [[movedSlide|] rest];
      [|repeat constructor].
    destruct (currentSlideIndex r =? fromIndex);
      [|destruct (currentSlideIndex r =?
                  match direction with Up => fromIndex - 1 | Down => fromIndex + 1 end)];
      repeat constructor.
  - unfold changeLayout.
    destruct (Js.get (slides r) (currentSlideIndex r)); repeat constructor.
  - unfold generateMediaForSlide.
    destruct (find (fun s => String.eqb (id s) slideId) (slides r)) as [slide|];
      [|repeat constructor].
    destruct (mediaJob w slide type); repeat constructor.
Qed.

End LogShape.

(** X9.  Under every sequence of gestures the log keeps at most 30 entries
    and the index never drops below -1. *)
Theorem session_keeps_log_shape (s : AppState) (gs : list gesture) :
  Js.length (history s) <= MAX_HISTORY ->
  -1 <= historyIndex s ->
  Js.length (history (session s gs)) <= MAX_HISTORY
  /\ -1 <= historyIndex (session s gs).
Proof.
  unfold session. revert s.
  induction gs as [|g gs IH]; intros s Hlen Hidx; cbn [fold_left]; [auto|].
  apply IH.
  - unfold perform. apply dispatch_bounded. assumption.
  - unfold perform, dispatch.
    pose proof (gesture_index_ok g s Hidx) as Hcalls.
    apply run_index_ok; [apply timers_index_ok; assumption|].
    apply run_index_ok; assumption.
Qed.

Lemma session_keeps_log_shape_witness :
  Js.length (history (session threeSlides sampleSession)) <= MAX_HISTORY
  /\ -1 <= historyIndex (session threeSlides sampleSession).
Proof.
  apply (session_keeps_log_shape threeSlides sampleSession); vm_compute; discriminate.
Defined.

(** ** Undo and redo as a pair *)

(** X10.  With the index in range and past the start, undo followed by redo
    leaves the log and the index as they were and the deck equal to the
    checkpoint at the index, with the restoration flag lowered again.  (Edits
    made since that checkpoint are not brought back.) *)
Theorem undo_then_redo_returns_to_checkpoint (s : AppState) (e : HistoryEntry) :
  index_in_range s ->
  0 < historyIndex s ->
  Js.get (history s) (historyIndex s) = Some e ->
  perform (perform s DoUndo) DoRedo =
    mkApp (h_slides e) (currentSlideIndex s) (h_title e)
          (history s) (historyIndex s) false.
Proof.
  intros Hin Hpos Hget.
  destruct (undo_in_range s Hin Hpos) as (prevState & _ & Hundo).
  change (perform s DoUndo) with (step s EvUndo). rewrite Hundo.
  set (u := mkApp (h_slides prevState) (currentSlideIndex s) (h_title prevState)
                  (history s) (historyIndex s - 1) false).
  destruct (redo_in_range u) as (nextState & Hnext & Hredo).
  { unfold index_in_range in *. cbn [history historyIndex u]. lia. }
  { unfold index_in_range in *. cbn [history historyIndex u]. lia. }
  change (perform u DoRedo) with (step u EvRedo). rewrite Hredo.
  cbn [history historyIndex currentSlideIndex u] in *.
  replace (historyIndex s - 1 + 1) with (historyIndex s) in * by lia.
  assert (nextState = e) by congruence. subst nextState. reflexivity.
Qed.

Lemma undo_then_redo_returns_to_checkpoint_witness :
  perform (perform (pushed 3) DoUndo) DoRedo =
    mkApp (h_slides (version 2)) 0 (h_title (version 2)) (history (pushed 3)) 2 false.
Proof.
  apply (undo_then_redo_returns_to_checkpoint (pushed 3) (version 2)).
  - unfold index_in_range. vm_compute. split; discriminate.
  - reflexivity.
  - reflexivity.
Defined.

(** X11.  An undo that finds no entry before the index (the index is more
    than one past the log) throws and restores nothing; it leaves the
    restoration flag raised, so from then on [saveSnapshot] records nothing
    and every further undo throws again. *)
Theorem undo_past_log_disables_checkpoints (s : AppState) :
  0 < historyIndex s ->
  Js.length (history s) < historyIndex s ->
  let after := perform s DoUndo in
  thrown (undo s) = [TypeError]
  /\ after = mkApp (slides s) (currentSlideIndex s) (presentationTitle s)
                   (history s) (historyIndex s) true
  /\ saveSnapshot after = []
  /\ thrown (undo after) = [TypeError].
Proof.
  intros Hpos Hpast. cbv zeta.
  assert (Hguard : (0 <? historyIndex s) = true) by (apply Z.ltb_lt; assumption).
  assert (Hnone : Js.get (history s) (historyIndex s - 1) = None)
    by (apply get_out_of_range; lia).
  assert (Hundo : undo s = [SetIsRestoringHistory true; Throw TypeError]).
  { unfold undo. rewrite Hguard, Hnone. reflexivity. }
  assert (Hafter : perform s DoUndo =
            mkApp (slides s) (currentSlideIndex s) (presentationTitle s)
                  (history s) (historyIndex s) true).
  { unfold perform, dispatch, gesture_handler. rewrite Hundo. reflexivity. }
  rewrite Hafter, Hundo. conjuncts; try reflexivity.
  unfold undo. cbn [historyIndex history]. rewrite Hguard, Hnone. reflexivity.
Qed.

Lemma undo_past_log_disables_checkpoints_witness :
  thrown (undo (pushed 32)) = [TypeError]
  /\ perform (pushed 32) DoUndo =
       mkApp (slides (pushed 32)) (currentSlideIndex (pushed 32))
             (presentationTitle (pushed 32)) (history (pushed 32))
             (historyIndex (pushed 32)) true
  /\ saveSnapshot (perform (pushed 32) DoUndo) = []
  /\ thrown (undo (perform (pushed 32) DoUndo)) = [TypeError].
Proof.
  apply (undo_past_log_disables_checkpoints (pushed 32)); vm_compute; reflexivity.
Defined.

(** X12.  Starting from a checkpointed deck, with no restoration in flight,
    the index in range and the log below its capacity: an edit that changes the deck, followed by
    [saveSnapshot], appends one checkpoint holding the edited deck; undo then
    gives back the slides as they were before the edit, and redo the edited
    slides. *)
Theorem checkpointed_edit_undo_redo (s : AppState) (slideId : string) (e : SlideEdit) :
  index_in_range s ->
  Js.length (history s) < MAX_HISTORY ->
  isRestoringHistory s = false ->
  currentEntrySlides s = Some (slides s) ->
  let edit := perform s (DoEdit slideId e) in
  slides edit <> slides s ->
  let saved := perform edit DoSaveSnapshot in
  let undone := perform saved DoUndo in
  let redone := perform undone DoRedo in
  history saved = firstn (Z.to_nat (historyIndex s + 1)) (history s)
                    ++ [mkEntry (slides edit) (presentationTitle s)]
  /\ slides undone = slides s
  /\ historyIndex undone = historyIndex s
  /\ slides redone = slides edit
  /\ historyIndex redone = historyIndex s + 1.
Proof.
  intros Hin Hlen Hflag Hsaved. cbv zeta.
  set (edit := perform s (DoEdit slideId e)).
  assert (Hedit : edit = mkApp (mapSlide slideId (applyEdit e) (slides s))
                               (currentSlideIndex s) (presentationTitle s)
                               (history s) (historyIndex s) (isRestoringHistory s))
    by reflexivity.
  intros Hchanged.
  assert (Hin' : index_in_range edit) by (rewrite Hedit; exact Hin).
  assert (Hlen' : Js.length (history edit) < MAX_HISTORY) by (rewrite Hedit; exact Hlen).
  assert (Hflag' : isRestoringHistory edit = false) by (rewrite Hedit; exact Hflag).
  assert (Hentry : currentEntrySlides edit = Some (slides s)) by (rewrite Hedit; exact Hsaved).
  assert (Hother : currentEntrySlides edit <> Some (slides edit)).
  { rewrite Hentry. intros H. injection H as H. auto. }
  assert (Hsave : perform edit DoSaveSnapshot
                  = step edit (EvPush (slides edit) (presentationTitle edit))).
  { unfold perform, step, dispatch, gesture_handler, handler, push.
    rewrite (saveSnapshot_other_slides edit Hflag' Hother). reflexivity. }
  rewrite Hsave.
  destruct (push_below_capacity edit (slides edit) (presentationTitle edit) Hin' Hlen')
    as (Hh & Hi & Hlast & Hget).
  unfold currentEntrySlides in Hentry.
  destruct (Js.get (history edit) (historyIndex edit)) as [before|] eqn:Hbefore;
    [|discriminate].
  cbn in Hentry. injection Hentry as Hbefore_slides.
  pose proof (get_Some_lt _ _ _ Hbefore) as Hbefore_range.
  destruct (undo_after_push_below_capacity edit (slides edit) (presentationTitle edit)
              before Hin' Hlen' Hbefore) as (Hus & _ & Hui).
  set (saved := step edit (EvPush (slides edit) (presentationTitle edit))) in *.
  change (perform saved DoUndo) with (step saved EvUndo).
  destruct (undo_in_range saved) as (prevState & _ & Hundo).
  { unfold index_in_range in *. lia. }
  { unfold index_in_range in *. lia. }
  destruct (redo_in_range (step saved EvUndo)) as (nextState & Hnext & Hredo).
  { rewrite Hundo. unfold index_in_range in *. cbn [history historyIndex]. lia. }
  { rewrite Hundo. unfold index_in_range in *. cbn [history historyIndex]. lia. }
  change (perform (step saved EvUndo) DoRedo) with (step (step saved EvUndo) EvRedo).
  rewrite Hredo.
  rewrite Hundo in Hnext. cbn [history historyIndex] in Hnext.
  replace (historyIndex saved - 1 + 1) with (historyIndex saved) in Hnext by lia.
  assert (nextState = mkEntry (slides edit) (presentationTitle edit)) by congruence.
  subst nextState.
  conjuncts.
  - rewrite Hh. reflexivity.
  - rewrite Hus. assumption.
  - rewrite Hui. reflexivity.
  - reflexivity.
  - cbn [historyIndex]. rewrite Hui. reflexivity.
Qed.

Lemma checkpointed_edit_undo_redo_witness :
  let edit := perform threeSlides (DoEdit "a" (EditTitle "Arrival")) in
  let saved := perform edit DoSaveSnapshot in
  history saved = history threeSlides ++ [mkEntry (slides edit) "Deck"]
  /\ slides (perform saved DoUndo) = slides threeSlides
  /\ historyIndex (perform saved DoUndo) = 0
  /\ slides (perform (perform saved DoUndo) DoRedo) = slides edit
  /\ historyIndex (perform (perform saved DoUndo) DoRedo) = 1.
Proof.
  apply (checkpointed_edit_undo_redo threeSlides "a" (EditTitle "Arrival")).
  - unfold index_in_range. vm_compute. split; discriminate.
  - reflexivity.
  - reflexivity.
  - reflexivity.
  - vm_compute. discriminate.
Defined.

(** X13.  On a log of exactly 30 entries with the index on the last one, a
    push drops the oldest entry and appends the snapshot, which keeps 30
    entries with the snapshot as the last one, and moves the index to 30. *)
Theorem push_on_full_log (s : AppState) (newSlides : list Slide) (newTitle : string) :
  Js.length (history s) = MAX_HISTORY ->
  historyIndex s = MAX_HISTORY - 1 ->
  let after := step s (EvPush newSlides newTitle) in
  history after = tl (history s) ++ [mkEntry newSlides newTitle]
  /\ Js.length (history after) = MAX_HISTORY
  /\ Js.get (history after) (MAX_HISTORY - 1) = Some (mkEntry newSlides newTitle)
  /\ historyIndex after = MAX_HISTORY.
Proof.
  unfold MAX_HISTORY, Js.length. intros Hlen Hidx. cbv zeta.
  rewrite dispatch_push. unfold pushToHistory, MAX_HISTORY, Js.length, Js.shift.
  cbn [history historyIndex]. rewrite Hidx.
  rewrite slice0_all by (unfold Js.length; lia).
  assert (Hover : (30 <? Z.of_nat (List.length (history s ++ [mkEntry newSlides newTitle])))
                  = true).
  { apply Z.ltb_lt. rewrite length_app. cbn. lia. }
  assert (Hroom : (30 <? Z.of_nat (List.length (history s))) = false)
    by (apply Z.ltb_ge; lia).
  rewrite Hover, Hroom.
  destruct (history s) as [|oldest kept] eqn:Hlog; [cbn in Hlen; lia|].
  cbn [tl app List.length] in *.
  conjuncts; try reflexivity.
  - rewrite length_app. cbn. lia.
  - replace (30 - 1) with (Z.of_nat (List.length kept)) by lia.
    apply get_at_prefix.
Qed.

Lemma push_on_full_log_witness :
  history (step (pushed 30) (pushVersion 30)) = tl (history (pushed 30)) ++ [version 30]
  /\ Js.length (history (step (pushed 30) (pushVersion 30))) = MAX_HISTORY
  /\ Js.get (history (step (pushed 30) (pushVersion 30))) (MAX_HISTORY - 1)
     = Some (version 30)
  /\ historyIndex (step (pushed 30) (pushVersion 30)) = MAX_HISTORY.
Proof.
  apply (push_on_full_log (pushed 30) (h_slides (version 30)) (h_title (version 30)));
    vm_compute; reflexivity.
Defined.

(** ** More on the generation client *)

Lemma refineImagePrompt_with_key (w : World) (originalPrompt slideTitle : string) :
  has_key w ->
  exists refined,
    refineImagePrompt w originalPrompt slideTitle = Returned refined
    /\ (refined = originalPrompt
        \/ (refined <> EmptyString
            /\ generateContent w originalPrompt slideTitle = Resolves (Some refined)))
    /\ (150 < Z.of_nat (String.length originalPrompt) -> refined = originalPrompt)
    /\ (forall e, generateContent w originalPrompt slideTitle = Rejects e ->
          refined = originalPrompt)
    /\ (originalPrompt <> EmptyString -> refined <> EmptyString).
Proof.
  unfold has_key. intros Hkey. unfold refineImagePrompt. rewrite Hkey. cbn [bind].
  destruct (150 <? Z.of_nat (String.length originalPrompt)) eqn:Hlong.
  - exists originalPrompt. conjuncts; auto.
  - apply Z.ltb_ge in Hlong.
    destruct (generateContent w originalPrompt slideTitle) as [[[|c text]|] | e] eqn:Hreq;
      cbn.
    + exists originalPrompt. conjuncts; auto.
    + exists (String c text). conjuncts; auto.
      * right. split; [discriminate | reflexivity].
      * lia.
      * discriminate.
      * intros _. discriminate.
    + exists originalPrompt. conjuncts; auto.
    + exists originalPrompt. conjuncts; auto.
Qed.

(** X14.  Without an API key [refineImagePrompt] throws the missing-key
    error.  With a key it always returns a prompt: the original one when it
    is longer than 150 characters or when the request is rejected, and
    otherwise the original one or the non-empty text of the service; a
    non-empty prompt is never refined into an empty one. *)
Theorem refineImagePrompt_falls_back (w : World) (originalPrompt slideTitle : string) :
  (getAiClient w = Raised ApiKeyNotFound ->
     refineImagePrompt w originalPrompt slideTitle = Raised ApiKeyNotFound)
  /\ (has_key w ->
      exists refined,
        refineImagePrompt w originalPrompt slideTitle = Returned refined
        /\ (refined = originalPrompt
            \/ (refined <> EmptyString
                /\ generateContent w originalPrompt slideTitle = Resolves (Some refined)))
        /\ (150 < Z.of_nat (String.length originalPrompt) -> refined = originalPrompt)
        /\ (forall e, generateContent w originalPrompt slideTitle = Rejects e ->
              refined = originalPrompt)
        /\ (originalPrompt <> EmptyString -> refined <> EmptyString)).
Proof.
  split.
  - intros Hnokey. unfold refineImagePrompt. rewrite Hnokey. reflexivity.
  - apply refineImagePrompt_with_key.
Qed.

Lemma refineImagePrompt_falls_back_witness :
  refineImagePrompt noKeyWorld "a harbour" "Harbour" = Raised ApiKeyNotFound
  /\ exists refined,
       refineImagePrompt failingWorld "a harbour" "Harbour" = Returned refined
       /\ refined = "a harbour".
Proof.
  destruct (refineImagePrompt_falls_back noKeyWorld "a harbour" "Harbour") as [Hnokey _].
  destruct (refineImagePrompt_falls_back failingWorld "a harbour" "Harbour") as [_ Hkey].
  split; [apply Hnokey; reflexivity|].
  destruct (Hkey eq_refl) as (refined & Hret & _ & _ & Hrej & _).
  exists refined. split; [assumption|]. apply (Hrej SdkError). reflexivity.
Defined.

(** X15.  A locator returned by [generateSlideImage] is always the JPEG data
    URL of the non-empty image bytes the service produced for the prompt with
    the style suffix appended. *)
Theorem generateSlideImage_returns_data_url (w : World) (prompt url : string) :
  generateSlideImage w prompt = Returned (Some url) ->
  exists base64,
    base64 <> EmptyString
    /\ generateImages w (prompt ++ IMAGE_STYLE)%string = Resolves (Some base64)
    /\ url = ("data:image/jpeg;base64," ++ base64)%string.
Proof.
  unfold generateSlideImage. destruct (getAiClient w) as [[]| |]; cbn [bind]; try discriminate.
  destruct (generateImages w (prompt ++ IMAGE_STYLE)%string) as [[[|c bytes]|] | e];
    cbn; try discriminate.
  intros H. injection H as <-. exists (String c bytes).
  conjuncts; [discriminate | reflexivity | reflexivity].
Qed.

Lemma generateSlideImage_returns_data_url_witness :
  exists base64,
    base64 <> EmptyString
    /\ generateImages retryWorld ("a harbour" ++ IMAGE_STYLE)%string = Resolves (Some base64)
    /\ "data:image/jpeg;base64,AAAA" = ("data:image/jpeg;base64," ++ base64)%string.
Proof.
  apply (generateSlideImage_returns_data_url retryWorld "a harbour"
           "data:image/jpeg;base64,AAAA").
  reflexivity.
Defined.

Section VideoDownload.

Variable w : World.

Lemma fetchAttempt_success (i : nat) (url : string) :
  fetchAttempt w i = Returned (Some url) ->
  exists res, fetch w i = Resolves res /\ ok res = true /\ blob res = Resolves url.
Proof.
  unfold fetchAttempt. destruct (fetch w i) as [res | e]; cbn; [|discriminate].
  destruct (ok res) eqn:Hok.
  - destruct (blob res) as [u | e] eqn:Hblob; cbn; [|discriminate].
    intros H. injection H as <-. exists res. auto.
  - destruct (status res =? 404); discriminate.
Qed.

Lemma fetchAttempt_continue (i : nat) :
  fetchAttempt w i = Returned None ->
  exists res, fetch w i = Resolves res /\ ok res = false /\ status res = 404.
Proof.
  unfold fetchAttempt. destruct (fetch w i) as [res | e]; cbn; [|discriminate].
  destruct (ok res) eqn:Hok.
  - destruct (blob res); cbn; discriminate.
  - destruct (status res =? 404) eqn:Hstatus; [|discriminate].
    apply Z.eqb_eq in Hstatus. intros _. exists res. auto.
Qed.

Lemma fetchAttempt_same (w' : World) (i : nat) :
  fetch w' i = fetch w i -> fetchAttempt w' i = fetchAttempt w i.
Proof. unfold fetchAttempt. intros ->. reflexivity. Qed.

Lemma poll_result_done (answers : list (promise Operation)) (operation result : Operation) :
  poll operation answers = Returned result -> done result = true.
Proof.
  revert operation. induction answers as [|answer rest IH]; intros operation; cbn [poll].
  - destruct (done operation) eqn:Hdone; [|discriminate].
    intros H. injection H as <-. assumption.
  - destruct (done operation) eqn:Hdone.
    + intros H. injection H as <-. assumption.
    + destruct answer as [next | e]; [apply IH | discriminate].
Qed.

End VideoDownload.

(** X16.  The video download makes at most three attempts.  A locator it
    returns is the blob URL of the first attempt whose download succeeded (an
    ok response whose blob could be read), no earlier attempt having produced
    a locator; it returns null only when the third attempt was answered 404;
    the only error it lets out is the one of the third attempt; and what a
    fourth or later request would be answered never matters. *)
Theorem video_download_attempts (w : World) :
  (forall url, fetchLoop w 0 3 = Returned (Some url) ->
     exists i res,
       (i < 3)%nat /\ fetch w i = Resolves res /\ ok res = true
       /\ blob res = Resolves url
       /\ forall j u, (j < i)%nat -> fetchAttempt w j <> Returned (Some u))
  /\ (fetchLoop w 0 3 = Returned None ->
      exists res, fetch w 2 = Resolves res /\ ok res = false /\ status res = 404)
  /\ (forall e, fetchLoop w 0 3 = Raised e -> fetchAttempt w 2 = Raised e)
  /\ (forall w', (forall i, (i < 3)%nat -> fetch w' i = fetch w i) ->
      fetchLoop w' 0 3 = fetchLoop w 0 3).
Proof.
  conjuncts.
  - intros url. cbn [fetchLoop Nat.eqb].
    destruct (fetchAttempt w 0) as [[u0|] | e0 |] eqn:H0.
    + intros H. injection H as <-.
      destruct (fetchAttempt_success w 0 u0 H0) as (res & Hf & Hok & Hblob).
      exists 0%nat, res. conjuncts; auto. intros j u Hj. lia.
    + destruct (fetchAttempt w 1) as [[u1|] | e1 |] eqn:H1.
      * intros H. injection H as <-.
        destruct (fetchAttempt_success w 1 u1 H1) as (res & Hf & Hok & Hblob).
        exists 1%nat, res. conjuncts; auto.
        intros j u Hj. assert (j = 0)%nat by lia. subst j. congruence.
      * destruct (fetchAttempt w 2) as [[u2|] | e2 |] eqn:H2; try discriminate.
        intros H. injection H as <-.
        destruct (fetchAttempt_success w 2 u2 H2) as (res & Hf & Hok & Hblob).
        exists 2%nat, res. conjuncts; auto.
        intros j u Hj. destruct j as [|[|j]]; [congruence | congruence | lia].
      * destruct (fetchAttempt w 2) as [[u2|] | e2 |] eqn:H2; try discriminate.
        intros H. injection H as <-.
        destruct (fetchAttempt_success w 2 u2 H2) as (res & Hf & Hok & Hblob).
        exists 2%nat, res. conjuncts; auto.
        intros j u Hj. destruct j as [|[|j]]; [congruence | congruence | lia].
      * discriminate.
    + destruct (fetchAttempt w 1) as [[u1|] | e1 |] eqn:H1.
      * intros H. injection H as <-.
        destruct (fetchAttempt_success w 1 u1 H1) as (res & Hf & Hok & Hblob).
        exists 1%nat, res. conjuncts; auto.
        intros j u Hj. assert (j = 0)%nat by lia. subst j. congruence.
      * destruct (fetchAttempt w 2) as [[u2|] | e2 |] eqn:H2; try discriminate.
        intros H. injection H as <-.
        destruct (fetchAttempt_success w 2 u2 H2) as (res & Hf & Hok & Hblob).
        exists 2%nat, res. conjuncts; auto.
        intros j u Hj. destruct j as [|[|j]]; [congruence | congruence | lia].
      * destruct (fetchAttempt w 2) as [[u2|] | e2 |] eqn:H2; try discriminate.
        intros H. injection H as <-.
        destruct (fetchAttempt_success w 2 u2 H2) as (res & Hf & Hok & Hblob).
        exists 2%nat, res. conjuncts; auto.
        intros j u Hj. destruct j as [|[|j]]; [congruence | congruence | lia].
      * discriminate.
    + discriminate.
  - cbn [fetchLoop Nat.eqb].
    destruct (fetchAttempt w 0) as [[u0|] | e0 |]; try discriminate;
      (destruct (fetchAttempt w 1) as [[u1|] | e1 |]; try discriminate);
      (destruct (fetchAttempt w 2) as [[u2|] | e2 |] eqn:H2; try discriminate);
      intros _; apply fetchAttempt_continue; assumption.
  - intros e. cbn [fetchLoop Nat.eqb].
    destruct (fetchAttempt w 0) as [[u0|] | e0 |]; try discriminate;
      (destruct (fetchAttempt w 1) as [[u1|] | e1 |]; try discriminate);
      (destruct (fetchAttempt w 2) as [[u2|] | e2 |] eqn:H2; try discriminate);
      intros H; exact H.
  - intros w' Hsame. cbn [fetchLoop Nat.eqb].
    rewrite (fetchAttempt_same w w' 0), (fetchAttempt_same w w' 1),
      (fetchAttempt_same w w' 2) by (apply Hsame; lia).
    reflexivity.
Qed.

Lemma video_download_attempts_witness :
  (exists i res,
     (i < 3)%nat /\ fetch retryWorld i = Resolves res /\ ok res = true
     /\ blob res = Resolves "blob:video"
     /\ forall j u, (j < i)%nat -> fetchAttempt retryWorld j <> Returned (Some u))
  /\ (exists res, fetch emptyWorld 2 = Resolves res /\ ok res = false /\ status res = 404)
  /\ fetchAttempt downloadFailsWorld 2 = Raised (HttpError 500)
  /\ fetchLoop lateWorld 0 3 = fetchLoop retryWorld 0 3.
Proof.
  destruct (video_download_attempts retryWorld) as (Hurl & _ & _ & Hsame).
  destruct (video_download_attempts emptyWorld) as (_ & Hnull & _ & _).
  destruct (video_download_attempts downloadFailsWorld) as (_ & _ & Hraise & _).
  split; [|split; [|split]].
  - apply Hurl. reflexivity.
  - apply Hnull. reflexivity.
  - apply Hraise. reflexivity.
  - apply Hsame. intros i Hi.
    destruct i as [|[|[|i]]]; [reflexivity | reflexivity | reflexivity | lia].
Defined.

(** X17.  With an API key, [generateSlideVideo] returns as soon as the polling
    can end, that is when some poll answer is rejected or reports the
    operation done: it does not wait forever and it does not throw. *)
Theorem generateSlideVideo_returns_when_polling_ends (w : World) (prompt : string) :
  has_key w ->
  Exists ends_polling (getVideosOperation w) ->
  exists result, generateSlideVideo w prompt = Returned result.
Proof.
  unfold has_key. intros Hkey Hends.
  unfold generateSlideVideo. rewrite Hkey. cbn [bind].
  destruct (generateVideos w (prompt ++ VIDEO_STYLE)%string) as [started | e];
    cbn [await bind try_catch]; [|eexists; reflexivity].
  pose proof (poll_ends (getVideosOperation w) started Hends) as Hpoll.
  destruct (poll started (getVideosOperation w)) as [operation | e |];
    cbn [bind try_catch]; [|eexists; reflexivity | contradiction].
  destruct (truthy (videoUri operation)); [|eexists; reflexivity].
  pose proof (fetchLoop_ends w 3 0) as Hfetch.
  destruct (fetchLoop w 0 3) as [result | e |]; cbn;
    [eexists; reflexivity | eexists; reflexivity | contradiction].
Qed.

Lemma generateSlideVideo_returns_when_polling_ends_witness :
  exists result, generateSlideVideo retryWorld "a harbour" = Returned result.
Proof.
  apply (generateSlideVideo_returns_when_polling_ends retryWorld "a harbour").
  - reflexivity.
  - constructor. reflexivity.
Defined.

(** X18.  A locator returned by [generateSlideVideo] always comes from an
    operation that reported completion with a video address, and from a
    download of that video that succeeded. *)
Theorem generateSlideVideo_locator_provenance (w : World) (prompt url : string) :
  generateSlideVideo w prompt = Returned (Some url) ->
  exists started operation address,
    generateVideos w (prompt ++ VIDEO_STYLE)%string = Resolves started
    /\ poll started (getVideosOperation w) = Returned operation
    /\ done operation = true
    /\ videoUri operation = Some address /\ address <> EmptyString
    /\ fetchLoop w 0 3 = Returned (Some url).
Proof.
  unfold generateSlideVideo.
  destruct (getAiClient w) as [[]| |]; cbn [bind]; try discriminate.
  destruct (generateVideos w (prompt ++ VIDEO_STYLE)%string) as [started | e];
    cbn [await bind try_catch]; [|discriminate].
  destruct (poll started (getVideosOperation w)) as [operation | e |] eqn:Hpoll;
    cbn [bind try_catch]; try discriminate.
  destruct (videoUri operation) as [[|c address]|] eqn:Huri; cbn [truthy];
    try discriminate.
  destruct (fetchLoop w 0 3) as [result | e |] eqn:Hfetch; cbn; try discriminate.
  intros H. injection H as ->.
  exists started, operation, (String c address).
  conjuncts; auto.
  - eapply poll_result_done. eassumption.
  - discriminate.
Qed.

Lemma generateSlideVideo_locator_provenance_witness :
  exists started operation address,
    generateVideos retryWorld ("a harbour" ++ VIDEO_STYLE)%string = Resolves started
    /\ poll started (getVideosOperation retryWorld) = Returned operation
    /\ done operation = true
    /\ videoUri operation = Some address /\ address <> EmptyString
    /\ fetchLoop retryWorld 0 3 = Returned (Some "blob:video").
Proof.
  apply (generateSlideVideo_locator_provenance retryWorld "a harbour" "blob:video").
  reflexivity.
Defined.

(** ** More on the media workflow *)

Section MediaJob.

Lemma find_absent (slideId : string) (l : list Slide) :
  (forall s, In s l -> id s <> slideId) ->
  find (fun s => String.eqb (id s) slideId) l = None.
Proof.
  induction l as [|x l IH]; intros Habsent; cbn; [reflexivity|].
  destruct (String.eqb (id x) slideId) eqn:Heq.
  - apply String.eqb_eq in Heq. exfalso. apply (Habsent x); [left; reflexivity | assumption].
  - apply IH. intros s Hs. apply Habsent. right. assumption.
Qed.

Lemma mapSlide_ids (slideId : string) (f : Slide -> Slide) (l : list Slide) :
  (forall s, id (f s) = id s) -> map id (mapSlide slideId f l) = map id l.
Proof.
  intros Hid. unfold mapSlide. rewrite map_map. apply map_ext.
  intros s. destruct (String.eqb (id s) slideId); auto.
Qed.

End MediaJob.

(** X19.  The job sends the slide's own prompt, unrefined, when the prompt
    has 100 characters or more, when it contains a comma, or when there is
    no API key; and a slide with a non-empty prompt never makes the job send
    an empty one. *)
Theorem activePrompt_keeps_detailed_prompts (w : World) (slide : Slide) :
  (100 <= Z.of_nat (String.length (imagePrompt slide))
   \/ includes_comma (imagePrompt slide) = true
   \/ getAiClient w = Raised ApiKeyNotFound ->
   activePrompt w slide = imagePrompt slide)
  /\ (imagePrompt slide <> EmptyString -> activePrompt w slide <> EmptyString).
Proof.
  split.
  - intros H. unfold activePrompt.
    destruct (Z.of_nat (String.length (imagePrompt slide)) <? 100) eqn:Hshort;
      [|reflexivity].
    apply Z.ltb_lt in Hshort.
    destruct (includes_comma (imagePrompt slide)) eqn:Hcomma; [reflexivity|].
    cbn [negb andb].
    destruct H as [H | [H | H]]; [lia | discriminate|].
    unfold refineImagePrompt. rewrite H. reflexivity.
  - intros Hfull. unfold activePrompt.
    destruct ((Z.of_nat (String.length (imagePrompt slide)) <? 100)
              && negb (includes_comma (imagePrompt slide))); [|assumption].
    destruct (getAiClient_cases w) as [Hkey | Hnokey].
    + destruct (refineImagePrompt_with_key w (imagePrompt slide) (title slide) Hkey)
        as (refined & -> & _ & _ & _ & Hnonempty).
      auto.
    + unfold refineImagePrompt. rewrite Hnokey. assumption.
Qed.

Lemma activePrompt_keeps_detailed_prompts_witness :
  activePrompt noKeyWorld illustrated = imagePrompt illustrated
  /\ activePrompt retryWorld illustrated <> EmptyString.
Proof.
  destruct (activePrompt_keeps_detailed_prompts noKeyWorld illustrated) as [Hkeep _].
  destruct (activePrompt_keeps_detailed_prompts retryWorld illustrated) as [_ Hfull].
  split.
  - apply Hkeep. right. right. reflexivity.
  - apply Hfull. discriminate.
Defined.

(** X20.  When no slide of the deck has the id, the job takes the pre-job
    checkpoint and does nothing else: the service is not called, no notice
    is shown, and the deck is left as it is. *)
Theorem media_job_on_absent_slide
    (w : World) (slideId : string) (type : MediaRequest) (r : AppState) :
  (forall s, In s (slides r) -> id s <> slideId) ->
  generateMediaForSlide w slideId type r
    = [PushToHistory (slides r) (presentationTitle r)]
  /\ slides (perform r (DoMedia w slideId type)) = slides r
  /\ forall w', generateMediaForSlide w' slideId type r = generateMediaForSlide w slideId type r.
Proof.
  intros Habsent. pose proof (find_absent slideId (slides r) Habsent) as Hfind.
  assert (Htrace : forall w0, generateMediaForSlide w0 slideId type r
                              = [PushToHistory (slides r) (presentationTitle r)]).
  { intros w0. unfold generateMediaForSlide. rewrite Hfind. reflexivity. }
  conjuncts.
  - apply Htrace.
  - unfold perform, dispatch, gesture_handler. rewrite Htrace. reflexivity.
  - intros w'. rewrite !Htrace. reflexivity.
Qed.

Lemma media_job_on_absent_slide_witness :
  generateMediaForSlide failingWorld "zz" RequestVideo threeSlides
    = [PushToHistory (slides threeSlides) (presentationTitle threeSlides)]
  /\ slides (perform threeSlides (DoMedia failingWorld "zz" RequestVideo)) = slides threeSlides
  /\ forall w', generateMediaForSlide w' "zz" RequestVideo threeSlides
                = generateMediaForSlide failingWorld "zz" RequestVideo threeSlides.
Proof.
  apply (media_job_on_absent_slide failingWorld "zz" RequestVideo threeSlides).
  intros s Hs. cbn in Hs.
  destruct Hs as [<- | [<- | [<- | []]]]; discriminate.
Defined.

(** A second push from the closure of the first one slices the log at the
    same index: it takes the place of the first. *)
Lemma second_push_replaces_first
    (r s : AppState) (first second : list Slide) (firstTitle secondTitle : string) :
  index_in_range r ->
  Js.length (history r) < MAX_HISTORY ->
  history s = history (pushToHistory r first firstTitle r) ->
  historyIndex s = historyIndex (pushToHistory r first firstTitle r) ->
  history (pushToHistory r second secondTitle s)
    = firstn (Z.to_nat (historyIndex r + 1)) (history r) ++ [mkEntry second secondTitle]
  /\ historyIndex (pushToHistory r second secondTitle s) = historyIndex r + 2.
Proof.
  intros Hin Hlen Hlog Hindex.
  destruct (push_below_capacity r first firstTitle Hin Hlen) as (Hh & Hi & _ & _).
  rewrite dispatch_push in Hh, Hi. rewrite Hh in Hlog. rewrite Hi in Hindex.
  unfold index_in_range, MAX_HISTORY, Js.length in *.
  unfold pushToHistory, MAX_HISTORY, Js.length, Js.shift. cbn [history historyIndex].
  rewrite Hlog, Hindex.
  set (kept := firstn (Z.to_nat (historyIndex r + 1)) (history r)).
  assert (Hkept : List.length kept = Z.to_nat (historyIndex r + 1)).
  { unfold kept. rewrite length_firstn. lia. }
  assert (Hslice : Js.slice0 (kept ++ [mkEntry first firstTitle]) (historyIndex r + 1) = kept).
  { rewrite slice0_firstn by lia. rewrite <- Hkept. apply firstn_prefix. }
  rewrite Hslice.
  assert (Hfit : (30 <? Z.of_nat (List.length (kept ++ [mkEntry second secondTitle]))) = false).
  { apply Z.ltb_ge. rewrite length_app. cbn. lia. }
  assert (Hroom : (30 <? Z.of_nat (List.length (history r))) = false)
    by (apply Z.ltb_ge; lia).
  rewrite Hfit, Hroom. split; [reflexivity | lia].
Qed.

(** X21.  When the job returns a non-empty locator, no notice is shown, every
    slide with the id gets that locator, the requested media kind and a
    lowered loading flag, and every other slide is as it was when the job
    started.  On a log below its capacity with the index in range, the log
    ends as the entries up to the index followed by one checkpoint, the deck
    after the job: the pre-job checkpoint is overwritten by the post-job one,
    and the index, moved two steps, is past that last entry. *)
Theorem media_job_success_writes_locator
    (w : World) (slideId : string) (type : MediaRequest) (r : AppState)
    (slide : Slide) (url : string) :
  find (fun s => String.eqb (id s) slideId) (slides r) = Some slide ->
  mediaJob w slide type = Returned (Some url) ->
  url <> EmptyString ->
  let trace := generateMediaForSlide w slideId type r in
  let after := perform r (DoMedia w slideId type) in
  alerts trace = []
  /\ (forall k,
       Js.get (slides after) k =
         option_map (fun s => if String.eqb (id s) slideId
                              then withMedia s (Some url) (requested type) else s)
                    (Js.get (slides r) k))
  /\ (index_in_range r -> Js.length (history r) < MAX_HISTORY ->
      history after = firstn (Z.to_nat (historyIndex r + 1)) (history r)
                        ++ [mkEntry (slides after) (presentationTitle r)]
      /\ historyIndex after = historyIndex r + 2
      /\ Js.get (history after) (historyIndex after) = None).
Proof.
  intros Hfind Hjob Hurl. cbv zeta.
  assert (Htruthy : truthy (Some url) = Some url) by (destruct url; [contradiction | reflexivity]).
  set (updated := mapSlide slideId (fun s => withMedia s (Some url) (requested type)) (slides r)).
  assert (Htrace : generateMediaForSlide w slideId type r =
    [ PushToHistory (slides r) (presentationTitle r);
      SetSlides (mapSlide slideId (fun s => withLoading s true (requested type)));
      SetSlides (fun _ => updated);
      PushToHistory updated (presentationTitle r) ]).
  { unfold generateMediaForSlide. rewrite Hfind, Hjob, Htruthy. reflexivity. }
  unfold perform, dispatch, gesture_handler. rewrite Htrace.
  unfold run, timers. cbn [fold_left flat_map exec app].
  set (started := mkApp _ _ _ _ _ _).
  assert (Hslides : slides (pushToHistory r updated (presentationTitle r) started) = updated)
    by reflexivity.
  conjuncts.
  - reflexivity.
  - intros k. rewrite Hslides. apply get_map.
  - intros Hin Hlen. rewrite Hslides.
    destruct (second_push_replaces_first r started (slides r) updated
                (presentationTitle r) (presentationTitle r) Hin Hlen eq_refl eq_refl)
      as [Hlog Hindex].
    rewrite Hlog, Hindex. conjuncts; try reflexivity.
    apply get_out_of_range. unfold Js.length, index_in_range in *.
    rewrite length_app, length_firstn. cbn. lia.
Qed.

Lemma media_job_success_writes_locator_witness :
  alerts (generateMediaForSlide retryWorld "a" RequestVideo threeSlides) = []
  /\ (forall k,
       Js.get (slides (perform threeSlides (DoMedia retryWorld "a" RequestVideo))) k =
         option_map (fun s => if String.eqb (id s) "a"
                              then withMedia s (Some "blob:video") Video else s)
                    (Js.get (slides threeSlides) k))
  /\ history (perform threeSlides (DoMedia retryWorld "a" RequestVideo))
     = history threeSlides
         ++ [mkEntry (slides (perform threeSlides (DoMedia retryWorld "a" RequestVideo)))
                     "Deck"]
  /\ historyIndex (perform threeSlides (DoMedia retryWorld "a" RequestVideo)) = 2.
Proof.
  destruct (media_job_success_writes_locator retryWorld "a" RequestVideo threeSlides
              (sampleSlide "a") "blob:video" eq_refl eq_refl)
    as (Halerts & Hslides & Hlog).
  - discriminate.
  - destruct Hlog as (Hhistory & Hindex & _).
    + unfold index_in_range. vm_compute. split; discriminate.
    + reflexivity.
    + split; [exact Halerts | split; [exact Hslides | split; [exact Hhistory | exact Hindex]]].
Defined.

(** X22.  When the job returns, what it writes back is computed from the deck
    of the render the job started in: whatever the deck has become while the
    job was in flight, the deck after the job is the one an undisturbed job
    leaves, so edits made in between are overwritten.  When the call chain
    raises, the reset is applied to the deck as it is by then, and only the
    loading flag and the media kind of the slides with the id change. *)
Theorem media_job_writes_back_start_deck
    (w : World) (slideId : string) (type : MediaRequest) (r : AppState) (slide : Slide) :
  find (fun s => String.eqb (id s) slideId) (slides r) = Some slide ->
  (forall url, mediaJob w slide type = Returned url ->
     forall mid, slides (run r (settled w slideId type r) mid)
                 = slides (perform r (DoMedia w slideId type)))
  /\ (forall e, mediaJob w slide type = Raised e ->
      forall mid, slides (run r (settled w slideId type r) mid)
                  = mapSlide slideId (fun s => withLoading s false MediaNone) (slides mid)).
Proof.
  intros Hfind. split.
  - intros url Hjob mid.
    unfold settled, perform, dispatch, gesture_handler, generateMediaForSlide.
    rewrite Hfind, Hjob. reflexivity.
  - intros e Hjob mid.
    unfold settled, generateMediaForSlide. rewrite Hfind, Hjob. reflexivity.
Qed.

Lemma media_job_writes_back_start_deck_witness :
  slides (run threeSlides (settled retryWorld "a" RequestVideo threeSlides)
              (perform threeSlides (DoEdit "b" (EditTitle "Berth"))))
    = slides (perform threeSlides (DoMedia retryWorld "a" RequestVideo))
  /\ slides (run threeSlides (settled noKeyWorld "a" RequestVideo threeSlides)
                 (perform threeSlides (DoEdit "b" (EditTitle "Berth"))))
     = mapSlide "a" (fun s => withLoading s false MediaNone)
                (slides (perform threeSlides (DoEdit "b" (EditTitle "Berth")))).
Proof.
  destruct (media_job_writes_back_start_deck retryWorld "a" RequestVideo threeSlides
              (sampleSlide "a") eq_refl) as [Hreturned _].
  destruct (media_job_writes_back_start_deck noKeyWorld "a" RequestVideo threeSlides
              (sampleSlide "a") eq_refl) as [_ Hraised].
  split.
  - apply (Hreturned (Some "blob:video")). reflexivity.
  - apply (Hraised ApiKeyNotFound). reflexivity.
Defined.

(** X23.  Whatever the service answers, a media job neither adds, removes nor
    reorders slides: the ids of the deck after the job are the ids before it,
    in the same order. *)
Theorem media_job_keeps_slide_order
    (w : World) (slideId : string) (type : MediaRequest) (r : AppState) :
  map id (slides (perform r (DoMedia w slideId type))) = map id (slides r).
Proof.
  unfold perform, dispatch, gesture_handler, generateMediaForSlide.
  destruct (find (fun s => String.eqb (id s) slideId) (slides r)) as [slide|];
    [|reflexivity].
  destruct (mediaJob w slide type) as [url | e |];
    unfold run, timers; cbn [fold_left flat_map exec slides pushToHistory app].
  - apply mapSlide_ids. reflexivity.
  - rewrite !mapSlide_ids by reflexivity. reflexivity.
  - apply mapSlide_ids. reflexivity.
Qed.

(** ** Structure generation *)

Section Identity.

Lemma list_ascii_app (a b : string) :
  list_ascii_of_string (a ++ b)%string = list_ascii_of_string a ++ list_ascii_of_string b.
Proof. induction a as [|c a IH]; cbn; [reflexivity | now rewrite IH]. Qed.

Lemma list_ascii_inj (a b : string) :
  list_ascii_of_string a = list_ascii_of_string b -> a = b.
Proof.
  intros H. rewrite <- (string_of_list_ascii_of_string a),
    <- (string_of_list_ascii_of_string b), H. reflexivity.
Qed.

(** Two lists that agree split at the first occurrence of [x] in the same way. *)
Lemma first_occurrence {A} (x : A) (p1 p2 q1 q2 : list A) :
  ~ In x p1 -> ~ In x p2 -> p1 ++ x :: q1 = p2 ++ x :: q2 -> p1 = p2.
Proof.
  revert p2. induction p1 as [|a p1 IH]; intros [|b p2] H1 H2 Heq; cbn in *.
  - reflexivity.
  - injection Heq as Hx _. exfalso. apply H2. left. symmetry. assumption.
  - injection Heq as Hx _. exfalso. apply H1. left. assumption.
  - injection Heq as Hab Hrest. subst b. f_equal.
    apply IH with (p2 := p2); auto.
Qed.

(** ... and at the last occurrence. *)
Lemma last_occurrence {A} (x : A) (p1 p2 q1 q2 : list A) :
  ~ In x q1 -> ~ In x q2 -> p1 ++ x :: q1 = p2 ++ x :: q2 -> q1 = q2.
Proof.
  intros H1 H2 Heq. apply (f_equal (@rev A)) in Heq.
  rewrite !rev_app_distr in Heq. cbn in Heq. rewrite <- !app_assoc in Heq. cbn in Heq.
  apply first_occurrence in Heq.
  - rewrite <- (rev_involutive q1), <- (rev_involutive q2), Heq. reflexivity.
  - intros H. apply H1. apply in_rev. assumption.
  - intros H. apply H2. apply in_rev. assumption.
Qed.

Lemma digits_have_no_dash (d : Decimal.uint) :
  ~ In "-"%char (list_ascii_of_string (NilEmpty.string_of_uint d)).
Proof.
  induction d; cbn; intros H; try contradiction;
    destruct H as [H | H]; try discriminate; auto.
Qed.

Lemma decimal_inj (a b : nat) : decimal a = decimal b -> a = b.
Proof.
  unfold decimal. intros H. apply Unsigned.to_uint_inj.
  assert (Hsome : Some (Nat.to_uint a) = Some (Nat.to_uint b)).
  { rewrite <- !NilEmpty.usu, H. reflexivity. }
  injection Hsome as Hsome. assumption.
Qed.

(** The index can be read back from the id. *)
Lemma hydratedId_index (now1 now2 index1 index2 : nat) :
  hydratedId now1 index1 = hydratedId now2 index2 -> index1 = index2.
Proof.
  intros H. apply (f_equal list_ascii_of_string) in H.
  assert (Hshape : forall now index,
            list_ascii_of_string (hydratedId now index) =
              (list_ascii_of_string "slide-" ++ list_ascii_of_string (decimal now))
                ++ "-"%char :: list_ascii_of_string (decimal index)).
  { intros now index. unfold hydratedId. rewrite !list_ascii_app, <- app_assoc.
    reflexivity. }
  rewrite !Hshape in H.
  apply last_occurrence in H; try apply digits_have_no_dash.
  apply decimal_inj. apply list_ascii_inj. assumption.
Qed.

Lemma hydrate_ids_from (clock : nat -> nat) (rawSlides : list Draft) (index : nat) (s : Slide) :
  In s (hydrate clock index rawSlides) ->
  exists later, (index <= later)%nat /\ id s = hydratedId (clock later) later.
Proof.
  revert index. induction rawSlides as [|d rest IH]; intros index; cbn; [contradiction|].
  intros [<- | Hs].
  - exists index. split; [lia | reflexivity].
  - destruct (IH (S index) Hs) as (later & Hle & Hid).
    exists later. split; [lia | assumption].
Qed.

Lemma hydrate_ids_distinct (clock : nat -> nat) (rawSlides : list Draft) (index : nat) :
  NoDup (map id (hydrate clock index rawSlides)).
Proof.
  revert index. induction rawSlides as [|d rest IH]; intros index; cbn; constructor.
  - intros Hin. apply in_map_iff in Hin. destruct Hin as (s & Hid & Hs).
    destruct (hydrate_ids_from clock rest (S index) s Hs) as (later & Hle & Hlater).
    rewrite Hlater in Hid. apply hydratedId_index in Hid. lia.
  - apply IH.
Qed.

End Identity.

(** X24.  Hydrating the drafts of the service gives one slide per draft, in
    order, with the draft's layout and title; every slide gets an id of its
    own, different from the ids of all the other slides whatever the clock
    reads, and starts with media kind none, no locator and the loading flag
    false. *)
Theorem hydrate_assigns_identity (clock : nat -> nat) (rawSlides : list Draft) :
  let generated := hydrate clock 0 rawSlides in
  map title generated = map d_title rawSlides
  /\ map layout generated = map d_layout rawSlides
  /\ NoDup (map id generated)
  /\ forall s, In s generated ->
       mediaType s = MediaNone /\ mediaUrl s = None /\ isLoadingMedia s = Some false.
Proof.
  cbv zeta. conjuncts.
  - generalize 0%nat. induction rawSlides as [|d rest IH]; intros index; cbn;
      [reflexivity | now rewrite IH].
  - generalize 0%nat. induction rawSlides as [|d rest IH]; intros index; cbn;
      [reflexivity | now rewrite IH].
  - apply hydrate_ids_distinct.
  - generalize 0%nat. induction rawSlides as [|d rest IH]; intros index s; cbn;
      [contradiction|].
    intros [<- | Hs]; [auto | eapply IH; eassumption].
Qed.

(** X25.  What a structuring request leaves behind.  When it fails, the
    status is error, the notice is shown, and the deck, the log and the
    storage are as before (the title is already the topic).  When it returns
    slides, the status is complete, the title is the topic, the log holds
    exactly one checkpoint, the generated deck, with the index on it, the
    background image of the title slide touches no other slide and is not in
    that checkpoint, and the project is stored.  When it returns no slide at
    all, the status is complete all the same, over an empty deck, and nothing
    is stored. *)
Theorem structure_generation_outcomes
    (sv : StructureService) (topic rawText : string) (sh : Shell) :
  let after := shell_dispatch (handleGenerateStructure sv topic rawText) sh in
  (forall e, generatePresentationStructure sv topic rawText = Raised e ->
     appStatus after = ErrorStatus
     /\ In (Core (Alert STRUCTURE_NOTICE)) (handleGenerateStructure sv topic rawText sh)
     /\ slides (core after) = slides (core sh)
     /\ history (core after) = history (core sh)
     /\ historyIndex (core after) = historyIndex (core sh)
     /\ presentationTitle (core after) = topic
     /\ storage after = storage sh)
  /\ (forall generated,
      generatePresentationStructure sv topic rawText = Returned generated ->
      generated <> [] ->
      appStatus after = Complete
      /\ presentationTitle (core after) = topic
      /\ history (core after) = [mkEntry generated topic]
      /\ index_in_range (core after)
      /\ historyIndex (core after) = 0
      /\ tl (slides (core after)) = tl generated
      /\ map id (slides (core after)) = map id generated
      /\ storage after = Some (Project (slides (core after)) topic Complete))
  /\ (generatePresentationStructure sv topic rawText = Returned [] ->
      appStatus after = Complete
      /\ slides (core after) = []
      /\ storage after = storage sh).
Proof.
  cbv zeta. conjuncts.
  - intros e Hraised. unfold shell_dispatch, handleGenerateStructure.
    rewrite Hraised. cbn. conjuncts; auto 10.
  - intros generated Hreturned Hsome.
    destruct generated as [|firstSlide rest]; [contradiction|].
    unfold shell_dispatch, handleGenerateStructure. rewrite Hreturned.
    unfold titleImage.
    destruct (refineImagePrompt (client sv) (imagePrompt firstSlide) (title firstSlide))
      as [refinedPrompt | e |];
      [destruct (generateSlideImage (client sv) refinedPrompt) as [url | e |];
        [destruct (truthy url)|..]|..];
      cbn; unfold index_in_range; cbn; conjuncts; try reflexivity; lia.
  - intros Hempty. unfold shell_dispatch, handleGenerateStructure.
    rewrite Hempty. cbn. conjuncts; reflexivity.
Qed.

Lemma structure_generation_outcomes_witness :
  appStatus (shell_dispatch (handleGenerateStructure brokenService "Harbours" "notes")
                            runningProject) = ErrorStatus
  /\ history (core (shell_dispatch (handleGenerateStructure sampleService "Harbours" "notes")
                                   (mkShell emptyApp Idle None)))
     = [mkEntry (hydrate (clock sampleService) 0 sampleDrafts) "Harbours"].
Proof.
  destruct (structure_generation_outcomes brokenService "Harbours" "notes" runningProject)
    as (Hfail & _ & _).
  destruct (structure_generation_outcomes sampleService "Harbours" "notes"
              (mkShell emptyApp Idle None)) as (_ & Hok & _).
  split.
  - apply (Hfail SdkError). reflexivity.
  - apply (Hok (hydrate (clock sampleService) 0 sampleDrafts)); [reflexivity | discriminate].
Defined.

(** ** Storage *)

Section Storage.

Lemma populated_length (l : list Slide) : l <> [] -> (0 <? Js.length l) = true.
Proof.
  intros H. apply Z.ltb_lt. unfold Js.length. destruct l; [contradiction|]. cbn. lia.
Qed.

Lemma persist_complete (sh : Shell) :
  appStatus sh = Complete -> slides (core sh) <> [] ->
  persist sh = mkShell (core sh) Complete
                 (Some (Project (slides (core sh)) (presentationTitle (core sh)) Complete)).
Proof.
  intros Hstatus Hsome. unfold persist.
  rewrite Hstatus, (populated_length _ Hsome). reflexivity.
Qed.

Lemma mount_project (savedSlides : list Slide) (savedTitle : string)
    (savedStatus : GenerationStatus) :
  savedSlides <> [] ->
  mount (Some (Project savedSlides savedTitle savedStatus)) =
    mkShell (mkApp savedSlides 0 savedTitle [mkEntry savedSlides savedTitle] 0 false)
            Complete (Some (Project savedSlides savedTitle Complete)).
Proof.
  intros Hsome. pose proof (populated_length _ Hsome) as Hlen.
  unfold mount, shell_dispatch, restore. cbn [storage]. rewrite Hlen.
  unfold shell_run. cbn [fold_left shell_exec exec core appStatus storage
                         slides currentSlideIndex presentationTitle history
                         historyIndex isRestoringHistory emptyApp].
  rewrite persist_complete by (first [reflexivity | assumption]). reflexivity.
Qed.

Lemma persist_keeps_state (sh : Shell) :
  core (persist sh) = core sh /\ appStatus (persist sh) = appStatus sh.
Proof.
  unfold persist. destruct (appStatus sh) eqn:Hstatus; auto.
  destruct (0 <? Js.length (slides (core sh))); auto.
Qed.

End Storage.

(** X26.  A complete project with at least one slide is written to storage,
    and a component mounted over that storage comes up with the same slides
    and title, status complete, the first slide selected, and a log of
    exactly one checkpoint holding that deck: the undo history is not
    restored, so there is nothing to undo or redo. *)
Theorem saved_project_is_restored (sh : Shell) :
  appStatus sh = Complete ->
  slides (core sh) <> [] ->
  let reloaded := mount (storage (persist sh)) in
  slides (core reloaded) = slides (core sh)
  /\ presentationTitle (core reloaded) = presentationTitle (core sh)
  /\ appStatus reloaded = Complete
  /\ currentSlideIndex (core reloaded) = 0
  /\ history (core reloaded) = [mkEntry (slides (core sh)) (presentationTitle (core sh))]
  /\ historyIndex (core reloaded) = 0
  /\ undo (core reloaded) = [] /\ redo (core reloaded) = []
  /\ storage reloaded = storage (persist sh).
Proof.
  intros Hstatus Hsome. cbv zeta.
  rewrite (persist_complete sh Hstatus Hsome). cbn [storage].
  rewrite (mount_project _ _ _ Hsome).
  conjuncts; reflexivity.
Qed.

Lemma saved_project_is_restored_witness :
  slides (core (mount (storage (persist runningProject)))) = slides threeSlides
  /\ history (core (mount (storage (persist runningProject))))
     = [mkEntry (slides threeSlides) "Deck"].
Proof.
  destruct (saved_project_is_restored runningProject eq_refl) as (Hs & _ & _ & _ & Hh & _).
  - discriminate.
  - split; assumption.
Defined.

(** X27.  Nothing is written for a project that is not complete or has no
    slide, and a component mounted over empty storage, over text that cannot
    be read, or over a saved project without slides starts empty and idle,
    leaving the storage as it found it. *)
Theorem nothing_to_save_or_restore (sh : Shell) (stored : option StoredItem) :
  (appStatus sh <> Complete \/ slides (core sh) = [] -> persist sh = sh)
  /\ (stored = None \/ stored = Some Unreadable
      \/ (exists savedTitle savedStatus, stored = Some (Project [] savedTitle savedStatus)) ->
      mount stored = mkShell emptyApp Idle stored).
Proof.
  split.
  - intros [Hstatus | Hempty]; unfold persist.
    + destruct (appStatus sh); try reflexivity. contradiction.
    + rewrite Hempty. destruct (appStatus sh); reflexivity.
  - intros [-> | [-> | (savedTitle & savedStatus & ->)]]; reflexivity.
Qed.

Lemma nothing_to_save_or_restore_witness :
  persist (mkShell threeSlides Analyzing None) = mkShell threeSlides Analyzing None
  /\ mount (Some Unreadable) = mkShell emptyApp Idle (Some Unreadable).
Proof.
  destruct (nothing_to_save_or_restore (mkShell threeSlides Analyzing None) (Some Unreadable))
    as [Hsave Hload].
  split.
  - apply Hsave. left. discriminate.
  - apply Hload. right. left. reflexivity.
Defined.

(** X28.  A confirmed [deleteProject] empties the deck, the title and the log
    (index -1), sets the status to idle and removes the stored project, which
    the persistence effect does not write again; the selected index is not
    reset.  A component mounted afterwards starts empty.  A declined one
    changes neither the deck nor the status. *)
Theorem deleteProject_clears_everything (sh : Shell) :
  let after := shell_dispatch (deleteProject true) sh in
  core after = mkApp [] (currentSlideIndex (core sh)) "" [] (-1)
                     (isRestoringHistory (core sh))
  /\ appStatus after = Idle
  /\ storage after = None
  /\ mount (storage after) = mkShell emptyApp Idle None
  /\ core (shell_dispatch (deleteProject false) sh) = core sh
  /\ appStatus (shell_dispatch (deleteProject false) sh) = appStatus sh.
Proof.
  cbv zeta. conjuncts; try reflexivity.
  - apply (persist_keeps_state sh).
  - apply (persist_keeps_state sh).
Qed.

